(** * sg-cafe-reviews: collection and cleaning pipeline

    A shallow embedding of [src/data/query.py] (class [CafeQuery]),
    [src/data/process.py] (class [CafeProcessor]) and of the deduplication
    step of [scripts/collect_data.py], together with the properties the
    specification states about them.

    Conventions.
    - Python exceptions are values of [exn]; a call that may raise returns
      [result A].
    - A Python [str] is a Rocq [string]; its characters are the code points
      U+0000 to U+00FF, on which [str.lower] and [str.split] are modelled
      exactly as CPython defines them.
    - A pandas [DataFrame] is a list of column labels with a list of rows,
      each row a finite map from labels to cells. *)

From Stdlib Require Import ZArith QArith Qcanon Qround Ascii String List.
From stdpp Require Import base option numbers list strings pretty functions gmap.


(** ** Exceptions *)

Inductive exn : Type :=
| KeyError (key : string)
| AttributeError (attr : string)
| UnboundLocalError (var : string)
| ValueError (msg : string)
| TypeError (msg : string)
| OutOfBoundsDatetime
| ProviderError (msg : string).

Inductive result (A : Type) : Type :=
| Ok (a : A)
| Raise (e : exn).
Arguments Ok {A} a.
Arguments Raise {A} e.

#[global] Instance result_ret : MRet result := λ A a, Ok a.
#[global] Instance result_bind : MBind result := λ A B k m,
  match m with
  | Ok a => k a
  | Raise e => Raise e
  end.

Definition returns {A} (m : result A) : Prop := ∃ a, m = Ok a.
Definition raises {A} (m : result A) : Prop := ∃ e, m = Raise e.

(** ** Text cleaning ([CafeProcessor.clean_review_text]) *)

Module Text.

Definition between (lo hi n : N) : bool := ((lo <=? n) && (n <=? hi))%N.

(** [str.isspace] on one code point below U+0100: the ASCII controls
    TAB..CR and FS..US, the space, NEL and the no-break space. *)
Definition is_space (c : ascii) : bool :=
  let n := N_of_ascii c in
  between 9 13 n || between 28 32 n || (n =? 133)%N || (n =? 160)%N.

(** [str.lower] on one code point below U+0100: A..Z and the Latin-1
    capitals U+00C0..U+00DE (the multiplication sign U+00D7 apart) move
    up by 32; every other code point is its own lower case. *)
Definition lower_char (c : ascii) : ascii :=
  let n := N_of_ascii c in
  if between 65 90 n || (between 192 222 n && negb (n =? 215)%N)
  then ascii_of_N (n + 32)
  else c.

Fixpoint lower (s : string) : string :=
  match s with
  | EmptyString => EmptyString
  | String c s' => String (lower_char c) (lower s')
  end.

(** [str.split()] without a separator: the maximal runs of non-space
    characters, in order; leading, trailing and repeated white space
    yields no empty word. *)
Fixpoint split (s : string) : list string :=
  match s with
  | EmptyString => []
  | String c s' =>
      if is_space c then split s'
      else match s' with
           | EmptyString => [String c EmptyString]
           | String c' _ =>
               if is_space c' then String c EmptyString :: split s'
               else match split s' with
                    | w :: ws => String c w :: ws
                    | [] => [String c EmptyString]
                    end
           end
  end.

(** [sep.join(words)] *)
Fixpoint join (sep : string) (ws : list string) : string :=
  match ws with
  | [] => EmptyString
  | [w] => w
  | w :: ws' => w +:+ sep +:+ join sep ws'
  end.

(** [clean_review_text]; [None] is a text for which [pd.isna] holds. *)
Definition clean_review_text (text : option string) : string :=
  match text with
  | None => ""
  | Some t =>
      if String.eqb t "" then ""
      else
        let text := lower t in
        let text := join " " (split text) in
        text
  end.

(** [df['text_clean'].str.len()] on one cell *)
Definition text_length (text_clean : string) : nat := String.length text_clean.

(** [df['text_clean'].str.split().str.len()] on one cell *)
Definition word_count (text_clean : string) : nat := length (split text_clean).

(** A word: not empty, no white space in it. *)
Fixpoint spaceless (s : string) : bool :=
  match s with
  | EmptyString => true
  | String c s' => negb (is_space c) && spaceless s'
  end.

Definition word (w : string) : Prop := w ≠ "" ∧ spaceless w = true.

End Text.

(** ** Calendar dates ([pd.to_datetime(..., unit='s')]) *)

Module Datetime.
Local Open Scope Z_scope.

Record date := { year : Z; month : Z; day : Z }.

#[global] Instance date_eq_dec : EqDecision date.
Proof. solve_decision. Defined.

(** The proleptic Gregorian date of a day number counted from
    1970-01-01. *)
Definition civil_from_days (days : Z) : date :=
  let z := days + 719468 in
  let era := z / 146097 in
  let doe := z - era * 146097 in
  let yoe := (doe - doe / 1460 + doe / 36524 - doe / 146096) / 365 in
  let y := yoe + era * 400 in
  let doy := doe - (365 * yoe + yoe / 4 - yoe / 100) in
  let mp := (5 * doy + 2) / 153 in
  let d := doy - (153 * mp + 2) / 5 + 1 in
  let m := if mp <? 10 then mp + 3 else mp - 9 in
  {| year := (if m <=? 2 then y + 1 else y); month := m; day := d |}.

(** A pandas [Timestamp] is held as its epoch seconds; at nanosecond
    resolution it spans 1677-09-21 to 2262-04-11. *)
Definition in_bounds (t : Z) : bool :=
  (-9223372036 <=? t) && (t <=? 9223372036).

(** [pd.to_datetime(t, unit='s')] on one number *)
Definition to_datetime (t : Z) : result Z :=
  if in_bounds t then Ok t else Raise OutOfBoundsDatetime.

(** [Timestamp.date()] *)
Definition date_of (ts : Z) : date := civil_from_days (ts / 86400).

(** [.dt.year], [.dt.month], [.dt.dayofweek] (Monday is 0; 1970-01-01
    was a Thursday) *)
Definition dt_year (ts : Z) : Z := year (date_of ts).
Definition dt_month (ts : Z) : Z := month (date_of ts).
Definition dt_dayofweek (ts : Z) : Z := (ts / 86400 + 3) mod 7.

End Datetime.

(** ** Data frames *)

Module Frame.
Import Datetime.

(** The value of one cell.  [Float q] is the float of rational value
    [q], [Sqrt q] the float square root of [q] (a sample standard
    deviation is kept as the root of its variance). *)
Inductive cell : Type :=
| NaN
| Int (z : Z)
| Float (q : Qc)
| Sqrt (q : Qc)
| Str (s : string)
| Date (d : date)
| Timestamp (t : Z)
| Strs (l : list string)
| Nums (l : list Qc).

#[global] Instance cell_eq_dec : EqDecision cell.
Proof. solve_decision. Defined.

(** A Python dict with string keys, in insertion order. *)
Definition record : Type := list (string * cell).

Abbreviation row := (gmap string cell).

Record DataFrame := { columns : list string; rows : list row }.

(** [pd.DataFrame()] *)
Definition empty : DataFrame := {| columns := []; rows := [] |}.

(** A cell that was never written reads as [NaN]. *)
Definition get (r : row) (c : string) : cell := default NaN (r !! c).

(** [len(df)] *)
Definition len (df : DataFrame) : nat := length (rows df).

(** The rows kept by [drop_duplicates]: a row goes when an earlier row
    has the same key ([keep='first']). *)
Fixpoint drop_dups {A K} `{EqDecision K} (key : A → K) (seen : list K)
    (l : list A) : list A :=
  match l with
  | [] => []
  | x :: l' =>
      if decide (key x ∈ seen) then drop_dups key seen l'
      else x :: drop_dups key (key x :: seen) l'
  end.

(** The distinct elements of a list, in order of first appearance. *)
Definition unique {A} `{EqDecision A} (l : list A) : list A :=
  drop_dups id [] l.

(** [pd.DataFrame(records)]: the columns are the keys of the records in
    order of first appearance. *)
Definition from_records (recs : list record) : DataFrame :=
  {| columns := unique (recs ≫= fmap fst);
     rows := (λ r : record, list_to_map r) <$> recs |}.

(** [df[c]] *)
Definition col (c : string) (df : DataFrame) : result (list cell) :=
  if decide (c ∈ columns df) then Ok ((λ r, get r c) <$> rows df)
  else Raise (KeyError c).

(** [df[c] = values], for [values] as long as the frame *)
Definition set_col (c : string) (values : list cell) (df : DataFrame) : DataFrame :=
  {| columns := if decide (c ∈ columns df) then columns df else columns df ++ [c];
     rows := zip_with (λ (r : row) v, <[c := v]> r) (rows df) values |}.

(** [df[c] = value], one value for every row *)
Definition set_const (c : string) (value : cell) (df : DataFrame) : DataFrame :=
  set_col c (replicate (len df) value) df.

(** [df[[c for c in keep if c in df.columns]]] *)
Definition select_present (keep : list string) (df : DataFrame) : DataFrame :=
  let cs := filter (λ c, c ∈ columns df) keep in
  {| columns := cs;
     rows := (λ r : row, filter (λ kv, kv.1 ∈ cs) r) <$> rows df |}.

(** The first label of [cs] that is not a column, if any. *)
Definition missing (cs : list string) (df : DataFrame) : option string :=
  head (filter (λ c, c ∉ columns df) cs).

(** [df.drop_duplicates(subset=[c])] *)
Definition drop_duplicates (c : string) (df : DataFrame) : result DataFrame :=
  if decide (c ∈ columns df)
  then Ok {| columns := columns df;
             rows := drop_dups (λ r, get r c) [] (rows df) |}
  else Raise (KeyError c).

(** [df[cs] = df[cs].fillna(value)] *)
Definition fillna (cs : list string) (value : cell) (df : DataFrame) : result DataFrame :=
  match missing cs df with
  | Some c => Raise (KeyError c)
  | None =>
      Ok {| columns := columns df;
            rows := (λ r : row,
                       foldr (λ c (r : row),
                                if decide (get r c = NaN) then <[c := value]> r else r)
                             r cs) <$> rows df |}
  end.

(** [pd.concat(dfs, ignore_index=True)] *)
Definition concat (dfs : list DataFrame) : result DataFrame :=
  match dfs with
  | [] => Raise (ValueError "No objects to concatenate")
  | _ => Ok {| columns := unique (dfs ≫= columns);
               rows := dfs ≫= rows |}
  end.

End Frame.

(** ** The collectors ([CafeQuery]) *)

Module Query.
Import Datetime Frame.

(** A run of a method that loops on the provider either is done, with a
    value or an exception, or is still fetching when its fuel is spent. *)
Inductive outcome (A : Type) : Type :=
| Done (r : result A)
| Fetching.
Arguments Done {A} r.
Arguments Fetching {A}.

(** *** Nearby search *)

(** A nearby-search response: the dict keys ['results'] and
    ['next_page_token'], each present or not. *)
Record response := {
  results : option (list record);
  next_page_token : option string }.

Inductive request : Type :=
| Nearby (location radius : cell) (type language : string)
| NextPage (page_token : string).

Definition keep_cols : list string :=
  ["name"; "place_id"; "rating"; "user_ratings_total"; "price_level";
   "types"; "business_status"; "permanently_closed"].

(** The names [getattr] finds on a [CafeQuery] instance: what
    [__init__] sets and what the class defines (the names every object
    has are left out). *)
Definition instance_dict : list string := ["gmaps"; "neighborhoods"].
Definition class_dict : list string :=
  ["__init__"; "collect_cafes"; "collect_all"; "collect_reviews"].

Definition getattr (name : string) : result string :=
  if decide (name ∈ instance_dict ++ class_dict) then Ok name
  else Raise (AttributeError name).

Section Nearby.
(** The provider, as the client sees it: the answer to the request
    number [n] (from 0), a response or a transport error.  The
    requests issued so far are logged. *)
Variable places_nearby : nat → result response.

(** The [while 'next_page_token' in response] loop of
    [collect_cafes]; each turn issues one request.  The two-second
    sleep has no effect on the values. *)
Fixpoint paginate (fuel : nat) (response : response) (all_cafes : list record)
    (log : list request) : outcome (list record) * list request :=
  match next_page_token response with
  | None => (Done (Ok all_cafes), log)
  | Some token =>
      match fuel with
      | O => (Fetching, log)
      | S fuel' =>
          let log' := log ++ [NextPage token] in
          match places_nearby (length log) with
          | Raise e => (Done (Raise e), log')
          | Ok response' =>
              match results response' with
              | None => (Done (Raise (KeyError "results")), log')
              | Some rs => paginate fuel' response' (all_cafes ++ rs) log'
              end
          end
      end
  end.

(** The tail of [collect_cafes]: the records as a frame, cut down to
    [keep_cols] and tagged with the area. *)
Definition tagged (neighborhood : gmap string cell) (all_cafes : list record)
    : result DataFrame :=
  match all_cafes with
  | [] => Ok empty
  | _ =>
      let df := from_records all_cafes in
      let df := select_present keep_cols df in
      match neighborhood !! "neighborhood_name" with
      | None => Raise (KeyError "neighborhood_name")
      | Some nm =>
          let df := set_const "neighborhood" nm df in
          match neighborhood !! "region" with
          | None => Raise (KeyError "region")
          | Some rg => Ok (set_const "region" rg df)
          end
      end
  end.

Definition collect_cafes (fuel : nat) (neighborhood : gmap string cell)
    (log : list request) : outcome DataFrame * list request :=
  match neighborhood !! "center" with
  | None => (Done (Raise (KeyError "center")), log)
  | Some center =>
      match neighborhood !! "radius" with
      | None => (Done (Raise (KeyError "radius")), log)
      | Some radius =>
          let log' := log ++ [Nearby center radius "cafe" "en"] in
          match places_nearby (length log) with
          | Raise e => (Done (Raise e), log')
          | Ok response =>
              let all_cafes := default [] (results response) in
              match paginate fuel response all_cafes log' with
              | (Done (Ok all_cafes), log'') =>
                  (Done (tagged neighborhood all_cafes), log'')
              | (Done (Raise e), log'') => (Done (Raise e), log'')
              | (Fetching, log'') => (Fetching, log'')
              end
          end
      end
  end.

(** Calling the attribute [attr] of the instance on one area. *)
Definition call (fuel : nat) (attr : string) (neighborhood : gmap string cell)
    (log : list request) : outcome DataFrame * list request :=
  if decide (attr = "collect_cafes") then collect_cafes fuel neighborhood log
  else (Done (Raise (TypeError attr)), log).

(** The [for] loop of [collect_all], then [pd.concat]; the progress
    message reads [neighborhood['name']] before the method is looked
    up. *)
Fixpoint collect_all_loop (fuel : nat) (neighborhoods : list (gmap string cell))
    (dfs : list DataFrame) (log : list request)
    : outcome DataFrame * list request :=
  match neighborhoods with
  | [] => (Done (concat dfs), log)
  | neighborhood :: rest =>
      match neighborhood !! "name" with
      | None => (Done (Raise (KeyError "name")), log)
      | Some _ =>
          match getattr "collect_neighborhood" with
          | Raise e => (Done (Raise e), log)
          | Ok method =>
              match call fuel method neighborhood log with
              | (Done (Ok df), log') =>
                  collect_all_loop fuel rest (dfs ++ [df]) log'
              | other => other
              end
          end
      end
  end.

Definition collect_all (fuel : nat) (neighborhoods : list (gmap string cell))
    : outcome DataFrame * list request :=
  collect_all_loop fuel neighborhoods [] [].

End Nearby.

(** *** Place details *)

(** One review of a place-detail response; [None] is an absent key. *)
Record review := {
  time : option Z;
  author_url : option string;
  rating : option Z;
  text : option string;
  relative_time_description : option string }.

(** The ['result'] of a place-detail response. *)
Record detail := {
  name : option string;
  reviews : option (list review) }.

(** The locals of [collect_reviews] that outlive one turn of its loop;
    [place_name] is unbound until its first assignment. *)
Record locals := {
  place_name : option string;
  all_reviews : list record }.

(** [author_url.split('/')[-1]] *)
Fixpoint last_segment (cur s : string) : string :=
  match s with
  | EmptyString => cur
  | String c s' =>
      if Ascii.eqb c "/" then last_segment "" s'
      else last_segment (cur +:+ String c "") s'
  end.

Definition opt (f : string → cell) (o : option string) : cell :=
  from_option f NaN o.

(** [pd.to_datetime(review.get('time'), unit='s').date() if
    review.get('time') else None]; a time of 0 is falsy. *)
Definition review_date_of (r : review) : result cell :=
  match time r with
  | None => Ok NaN
  | Some t =>
      if decide (t = 0%Z) then Ok NaN
      else ts ← to_datetime t; Ok (Date (date_of ts))
  end.

(** [author_url.split('/')[-1] if author_url else None] *)
Definition author_id_of (r : review) : cell :=
  match author_url r with
  | None => NaN
  | Some url => if String.eqb url "" then NaN else Str (last_segment "" url)
  end.

Definition review_data (place_id place_name : string) (r : review)
    (review_date : cell) : record :=
  [("place_id", Str place_id);
   ("place_name", Str place_name);
   ("author_id", author_id_of r);
   ("rating", from_option Int NaN (rating r));
   ("text", Str (default "" (text r)));
   ("review_date", review_date);
   ("relative_time_description", opt Str (relative_time_description r))].

Section Details.
(** The provider's answer to a place-detail request: an error, or the
    response, whose ['result'] key may be absent. *)
Variable place : string → result (option detail).

(** [for review in reviews: ...] *)
Fixpoint each_review (place_id place_name : string) (rs : list review)
    (st : locals) : locals * result () :=
  match rs with
  | [] => (st, Ok ())
  | r :: rs' =>
      match review_date_of r with
      | Raise e => (st, Raise e)
      | Ok review_date =>
          each_review place_id place_name rs'
            {| place_name := Query.place_name st;
               all_reviews :=
                 all_reviews st ++ [review_data place_id place_name r review_date] |}
      end
  end.

(** The body of the [try]. *)
Definition try_place (place_id : string) (st : locals) : locals * result () :=
  match place place_id with
  | Raise e => (st, Raise e)
  | Ok None => (st, Raise (KeyError "result"))
  | Ok (Some res) =>
      let place_name := default "Unknown" (name res) in
      let reviews := default [] (reviews res) in
      each_review place_id place_name reviews
        {| place_name := Some place_name; all_reviews := all_reviews st |}
  end.

(** The [for] loop with its handler: [except Exception as e] prints
    a message which reads [place_name], then goes on. *)
Fixpoint collect_reviews_loop (place_ids : list string) (st : locals)
    : result (list record) :=
  match place_ids with
  | [] => Ok (all_reviews st)
  | place_id :: rest =>
      match try_place place_id st with
      | (st', Ok _) => collect_reviews_loop rest st'
      | (st', Raise e) =>
          match place_name st' with
          | None => Raise (UnboundLocalError "place_name")
          | Some _ => collect_reviews_loop rest st'
          end
      end
  end.

Definition collect_reviews (place_ids : list string) : result DataFrame :=
  all_reviews ← collect_reviews_loop place_ids
                  {| place_name := None; all_reviews := [] |};
  Ok (from_records all_reviews).

End Details.

End Query.

(** ** pandas numerics: [qcut], group statistics, [count], [merge] *)

Module Pandas.
Import Frame.

(** A cell read as a number; [None] is a missing value. *)
Definition as_number (c : cell) : result (option Q) :=
  match c with
  | NaN => Ok None
  | Int z => Ok (Some (inject_Z z))
  | Float q => Ok (Some (this q))
  | _ => Raise (TypeError "not a number")
  end.

(** [validate_percentile], the first step of [Series.quantile] *)
Definition validate_percentile (q : list Q) : result () :=
  if forallb (λ p, Qle_bool 0 p && Qle_bool p 1) q then Ok ()
  else Raise (ValueError "percentiles should all be in the interval [0, 1]").

Fixpoint insert_sorted {A} (le : A → A → bool) (x : A) (l : list A) : list A :=
  match l with
  | [] => [x]
  | y :: l' => if le x y then x :: l else y :: insert_sorted le x l'
  end.

Definition sort {A} (le : A → A → bool) (l : list A) : list A :=
  foldr (insert_sorted le) [] l.

(** The quantile [p] of sorted values, with linear interpolation
    between the two nearest ranks; [None] for no values. *)
Definition quantile (sorted : list Q) (p : Q) : option Q :=
  match sorted with
  | [] => None
  | x0 :: _ =>
      let h := (p * inject_Z (Z.of_nat (length sorted - 1)))%Q in
      let i := Z.to_nat (Qfloor h) in
      let lo := nth i sorted x0 in
      let hi := nth (S i) sorted lo in
      Some (lo + (hi - lo) * (h - inject_Z (Qfloor h)))%Q
  end.

Definition edge_eqb (a b : option Q) : bool :=
  match a, b with
  | None, None => true
  | Some x, Some y => Qeq_bool x y
  | _, _ => false
  end.

Fixpoint has_duplicates {A} (eqb : A → A → bool) (l : list A) : bool :=
  match l with
  | [] => false
  | x :: l' => existsb (eqb x) l' || has_duplicates eqb l'
  end.

(** [bins.searchsorted(v, side='left')]: how many edges lie below [v]. *)
Definition searchsorted_left (bins : list (option Q)) (v : Q) : nat :=
  length (filter (λ b, from_option (λ e, Qle_bool v e) true b = false) bins).

(** [_bins_to_cuts(x, bins, labels, include_lowest=True,
    duplicates='raise')] *)
Definition bins_to_cuts (x : list (option Q)) (bins : list (option Q))
    (labels : list cell) : result (list cell) :=
  if has_duplicates edge_eqb bins && negb (length bins =? 2)
  then Raise (ValueError "Bin edges must be unique")
  else if has_duplicates (λ a b : cell, bool_decide (a = b)) labels
  then Raise (ValueError "labels must be unique if ordered=True")
  else if negb (length labels =? length bins - 1)
  then Raise (ValueError "Bin labels must be one fewer than the number of bin edges")
  else
    Ok ((λ v : option Q,
           match v with
           | None => NaN
           | Some v =>
               let ids := searchsorted_left bins v in
               let ids := if edge_eqb (Some v) (default None (head bins)) then 1 else ids in
               if (ids =? 0) || (ids =? length bins) then NaN
               else nth (ids - 1) labels NaN
           end) <$> x).

(** [pd.qcut(x, q, labels)] for a list [q] of quantiles *)
Definition qcut (x : list cell) (q : list Q) (labels : list cell)
    : result (list cell) :=
  _ ← validate_percentile q;
  x ← mapM as_number x;
  let sorted := sort Qle_bool (omap id x) in
  let bins := quantile sorted <$> q in
  bins_to_cuts x bins labels.

(** The statistics of one group; [std] has one degree of freedom less
    than values, and is missing below two values. *)
Definition total (xs : list Q) : Q := foldr Qplus 0%Q xs.

Definition mean_of (xs : list Q) : Q :=
  (total xs / inject_Z (Z.of_nat (length xs)))%Q.

Definition mean (vals : list cell) : result cell :=
  x ← mapM as_number vals;
  let xs := omap id x in
  Ok (match xs with [] => NaN | _ => Float (Q2Qc (mean_of xs)) end).

Definition std (vals : list cell) : result cell :=
  x ← mapM as_number vals;
  let xs := omap id x in
  Ok (if length xs <? 2 then NaN
      else
        let m := mean_of xs in
        let ss := total ((λ v, (v - m) * (v - m))%Q <$> xs) in
        Sqrt (Q2Qc (ss / inject_Z (Z.of_nat (length xs - 1))))).

Definition count_valid (vals : list cell) : cell :=
  Int (Z.of_nat (length (filter (λ c, c ≠ NaN) vals))).

(** A frame with a named index, as [groupby(...).agg(...)] returns. *)
Record Indexed := {
  index_name : string;
  index : list cell;
  data : DataFrame }.

Record Series := {
  sname : option string;
  sindex : list cell;
  svalues : list cell }.

Definition key_leb (a b : cell) : bool :=
  match a, b with
  | Str s, Str t => String.leb s t
  | Int x, Int y => (x <=? y)%Z
  | _, _ => true
  end.

(** [df.groupby(key).agg({'rating': ['mean', 'std', 'count'],
    'text_length': 'mean', 'word_count': 'mean'})]: one row for each
    key that is not missing, keys in order. *)
Definition groupby_agg (key : string) (df : DataFrame) : result Indexed :=
  keys ← col key df;
  match missing ["rating"; "text_length"; "word_count"] df with
  | Some c => Raise (KeyError c)
  | None =>
      let index := sort key_leb (unique (filter (λ k, k ≠ NaN) keys)) in
      stats ← mapM (λ k,
                 let group := filter (λ r, get r key = k) (rows df) in
                 let values c := (λ r, get r c) <$> group in
                 rating_mean ← mean (values "rating");
                 rating_std ← std (values "rating");
                 text_length_mean ← mean (values "text_length");
                 word_count_mean ← mean (values "word_count");
                 Ok ({[ "('rating', 'mean')" := rating_mean;
                        "('rating', 'std')" := rating_std;
                        "('rating', 'count')" := count_valid (values "rating");
                        "('text_length', 'mean')" := text_length_mean;
                        "('word_count', 'mean')" := word_count_mean ]} : row))
               index;
      Ok {| index_name := key;
            index := index;
            data := {| columns := ["('rating', 'mean')"; "('rating', 'std')";
                                   "('rating', 'count')"; "('text_length', 'mean')";
                                   "('word_count', 'mean')"];
                       rows := stats |} |}
  end.

(** [DataFrame.count(axis)]: the number of cells that are not missing,
    for each column (axis 0) or each row (axis 1); a frame has no other
    axis.  The series it returns has no name. *)
Definition count (axis : Z) (g : Indexed) : result Series :=
  let df := data g in
  if decide (axis = 0%Z) then
    Ok {| sname := None;
          sindex := Str <$> columns df;
          svalues := (λ c, count_valid ((λ r, get r c) <$> rows df)) <$> columns df |}
  else if decide (axis = 1%Z) then
    Ok {| sname := None;
          sindex := index g;
          svalues := (λ r, count_valid (get r <$> columns df)) <$> rows df |}
  else Raise (ValueError ("No axis named " +:+ pretty axis
                          +:+ " for object type DataFrame")).

(** [left.merge(right, on=on, how='left')] for a series on the right:
    a series merges as the one-column frame of its name. *)
Definition merge_left (left : DataFrame) (right : Series) (on : string)
    : result DataFrame :=
  match sname right with
  | None => Raise (ValueError "Cannot merge a Series without a name")
  | Some nm =>
      if decide (on ∈ columns left ∧ nm = on) then
        Ok {| columns := columns left;
              rows := l ← rows left;
                      match filter (λ v, v = get l on) (svalues right) with
                      | [] => [l]
                      | matches => (λ _, l) <$> matches
                      end |}
      else Raise (KeyError on)
  end.

End Pandas.

(** ** The cleaning and aggregation pipeline ([CafeProcessor])

    The methods are embedded as they are written.  (As shipped, the
    header of [load_data], line 16 of the file, lacks its closing colon;
    the embedding reads the class with that colon in place.) *)

Module Process.
Import Datetime Frame Pandas.

(** [clean_cafe_df]; the list of quantiles is the literal of the
    source, [[0, 0,25, 5, 0,75, 1]], seven integers. *)
Definition clean_cafe_df (cafes_df : DataFrame) : result DataFrame :=
  df ← drop_duplicates "place_id" cafes_df;
  df ← fillna ["price_level"; "rating"; "total_ratings"] (Int (-1)) df;
  total_ratings ← col "total_ratings" df;
  ratings_pct ← qcut total_ratings
                  [0; 0; 25; 5; 0; 75; 1]%Q
                  [Int 1; Int 2; Int 3; Int 4];
  Ok (set_col "ratings_pct" ratings_pct df).

(** [self.clean_review_text] applied to one cell of the [text] column:
    a missing value or a [str]; any other value has no [lower]. *)
Definition clean_text_cell (c : cell) : result cell :=
  match c with
  | NaN => Ok (Str (Text.clean_review_text None))
  | Str s => Ok (Str (Text.clean_review_text (Some s)))
  | _ => Raise (AttributeError "lower")
  end.

(** [.str.len()] and [.str.split().str.len()] on one cell *)
Definition str_len (c : cell) : cell :=
  match c with
  | Str s => Int (Z.of_nat (Text.text_length s))
  | _ => NaN
  end.

Definition str_split_len (c : cell) : cell :=
  match c with
  | Str s => Int (Z.of_nat (Text.word_count s))
  | _ => NaN
  end.

(** [pd.to_datetime(..., unit='s')] on one cell: epoch seconds become
    a timestamp, a missing value stays missing (NaT). *)
Definition to_datetime_cell (c : cell) : result cell :=
  match c with
  | NaN => Ok NaN
  | Int t => ts ← to_datetime t; Ok (Timestamp ts)
  | Float q => ts ← to_datetime (Qfloor (this q)); Ok (Timestamp ts)
  | _ => Raise (ValueError "not convertible to datetime")
  end.

(** A [.dt] field on one cell; NaT gives a missing value. *)
Definition dt (field : Z → Z) (c : cell) : cell :=
  match c with
  | Timestamp ts => Int (field ts)
  | _ => NaN
  end.

Definition clean_review_df (reviews_df : DataFrame) : result DataFrame :=
  df ← drop_duplicates "place_id" reviews_df;
  text ← col "text" df;
  text_clean ← mapM clean_text_cell text;
  let df := set_col "text_clean" text_clean df in
  text_clean ← col "text_clean" df;
  let df := set_col "text_length" (str_len <$> text_clean) df in
  text_clean ← col "text_clean" df;
  let df := set_col "word_count" (str_split_len <$> text_clean) df in
  time ← col "time" df;
  review_date ← mapM to_datetime_cell time;
  let df := set_col "review_date" review_date df in
  review_date ← col "review_date" df;
  let df := set_col "year" (dt dt_year <$> review_date) df in
  review_date ← col "review_date" df;
  let df := set_col "month" (dt dt_month <$> review_date) df in
  review_date ← col "review_date" df;
  let df := set_col "day_of_week" (dt dt_dayofweek <$> review_date) df in
  Ok df.

(** [cafe_reviews_df]; the source ends the aggregation with
    [.count(2)]. *)
Definition cafe_reviews_df (cafes_df reviews_df : DataFrame) : result DataFrame :=
  grouped ← groupby_agg "place_id" reviews_df;
  review_stats ← count 2 grouped;
  merge_left cafes_df review_stats "place_id".

End Process.

(** ** Combining the areas ([collect_all_data], lines 64 to 72) *)

Module Collect.
Import Frame.

(** [pd.concat(all_cafes_dfs, ignore_index=True)] then
    [drop_duplicates(subset=['place_id'])] *)
Definition final_cafes (all_cafes_dfs : list DataFrame) : result DataFrame :=
  final_cafes ← concat all_cafes_dfs;
  drop_duplicates "place_id" final_cafes.

End Collect.

(** ** The notions the properties are stated with *)

Module Notions.
Import Frame Query.

(** The first element of [l] with key [k]. *)
Definition first_with {A K} `{EqDecision K} (key : A → K) (k : K) (l : list A)
    : option A :=
  head (filter (λ x, key x = k) l).

Definition place_id (r : row) : cell := get r "place_id".

(** What [drop_duplicates] leaves of a list of rows. *)
Record deduplicated (before after : list row) : Prop := {
  dedup_distinct : NoDup (place_id <$> after);
  dedup_all_ids : ∀ k, k ∈ place_id <$> after ↔ k ∈ place_id <$> before;
  dedup_first : ∀ k, first_with place_id k after = first_with place_id k before;
  dedup_order : sublist after before }.

(** The columns [clean_review_df] writes. *)
Definition derived : list string :=
  ["text_clean"; "text_length"; "word_count"; "review_date";
   "year"; "month"; "day_of_week"].

(** [r'] holds what [r] holds, the columns [cs] apart. *)
Definition agree_outside (cs : list string) (r r' : row) : Prop :=
  ∀ c, c ∉ cs → get r' c = get r c.

(** The keys of every record [collect_reviews] builds. *)
Definition review_keys : list string :=
  ["place_id"; "place_name"; "author_id"; "rating"; "text"; "review_date";
   "relative_time_description"].

Definition review_records (recs : list record) : Prop :=
  Forall (λ rec : record, rec.*1 = review_keys) recs.

(** The records of one response. *)
Definition page_results (r : result response) : list record :=
  match r with
  | Ok resp => default [] (results resp)
  | Raise _ => []
  end.

(** A well-formed page that carries a token, and one that carries
    none. *)
Definition page_with_token (r : result response) : Prop :=
  ∃ resp rs token,
    r = Ok resp ∧ results resp = Some rs ∧ next_page_token resp = Some token.

Definition last_page (r : result response) : Prop :=
  ∃ resp rs,
    r = Ok resp ∧ results resp = Some rs ∧ next_page_token resp = None.

(** The records of the [n] responses from number [n0] on. *)
Definition pages (places_nearby : nat → result response) (n0 n : nat)
    : list record :=
  j ← seq n0 n; page_results (places_nearby j).

End Notions.

(** ** Scenarios: the concrete inputs the properties are run on *)

Module Scenario.
Import Datetime Frame Query.

(** The review text of the end-to-end scenario; ["010"] is the line
    feed. *)
Definition great_coffee : string :=
  "  Great Coffee!!  " +:+ String "010" " Nice ".

(** A reviews table with a [time] column, holding the scenario's text. *)
Definition one_review : DataFrame :=
  from_records
    [[("place_id", Str "p1"); ("author_id", Str "101"); ("rating", Int 5);
      ("text", Str great_coffee); ("time", Int 1700000000)]].

(** Two areas whose radii overlap: area B returns the place [p2] that
    area A returned before it. *)
Definition area_A : DataFrame :=
  from_records
    [[("name", Str "Kopi Corner"); ("place_id", Str "p1");
      ("neighborhood", Str "A"); ("region", Str "Central")];
     [("name", Str "Bean There"); ("place_id", Str "p2");
      ("neighborhood", Str "A"); ("region", Str "Central")]].

Definition area_B : DataFrame :=
  from_records
    [[("name", Str "Bean There"); ("place_id", Str "p2");
      ("neighborhood", Str "B"); ("region", Str "East")];
     [("name", Str "Latte Lane"); ("place_id", Str "p3");
      ("neighborhood", Str "B"); ("region", Str "East")]].

Definition two_areas : DataFrame :=
  {| columns := ["name"; "place_id"; "neighborhood"; "region"];
     rows := rows area_A ++ rows area_B |}.

(** A reviews table with a [time] column: two reviews of the place
    [p1], by two authors, and one of [p2], whose time is missing. *)
Definition same_place_reviews : DataFrame :=
  from_records
    [[("place_id", Str "p1"); ("author_id", Str "101"); ("rating", Int 5);
      ("text", Str "Lovely flat white"); ("time", Int 1700000000)];
     [("place_id", Str "p1"); ("author_id", Str "102"); ("rating", Int 2);
      ("text", Str "Slow service"); ("time", Int 1700086400)];
     [("place_id", Str "p2"); ("author_id", Str "103"); ("rating", Int 4);
      ("text", Str "Good  beans")]].

(** An area, as [__init__] builds it from the configuration. *)
Definition bugis : gmap string cell :=
  {[ "center" := Nums [Q2Qc (13 # 10); Q2Qc (10385 # 100)];
     "radius" := Int 800;
     "neighborhood_name" := Str "Bugis";
     "region" := Str "Central" ]}.

Definition cafe (id : string) : record :=
  [("name", Str ("Cafe " +:+ id)); ("place_id", Str id);
   ("rating", Float (Q2Qc (43 # 10))); ("user_ratings_total", Int 120);
   ("price_level", Int 2); ("vicinity", Str "Bugis Street")].

(** A provider that answers every request with one more page and one
    more token. *)
Definition always_token : nat → result response :=
  λ n, Ok {| results := Some [cafe "p"]; next_page_token := Some "next" |}.

(** A provider that answers with three pages, the last without a
    token. *)
Definition three_pages : nat → result response :=
  λ n, Ok {| results := Some [cafe "a"; cafe "b"];
             next_page_token := if decide (n < 2) then Some "next" else None |}.

(** Place details: every place has one review; the request for the
    place [failing] raises. *)
Definition a_review (author : string) : review :=
  {| time := Some 1700000000%Z;
     author_url := Some ("https://www.google.com/maps/contrib/" +:+ author);
     rating := Some 4%Z;
     text := Some "Nice";
     relative_time_description := Some "a month ago" |}.

Definition details_failing_at (failing : string) : string → result (option detail) :=
  λ place_id,
    if decide (place_id = failing) then Raise (ProviderError "timeout")
    else Ok (Some {| name := Some ("Cafe " +:+ place_id);
                     reviews := Some [a_review place_id] |}).

(** A places table with a [total_ratings] column, and a cleaned reviews
    table. *)
Definition four_cafes : DataFrame :=
  from_records
    [[("place_id", Str "p1"); ("price_level", Int 2); ("rating", Int 4);
      ("total_ratings", Int 10)];
     [("place_id", Str "p2"); ("price_level", Int 1); ("rating", Int 5);
      ("total_ratings", Int 20)];
     [("place_id", Str "p3"); ("price_level", NaN); ("rating", Int 3);
      ("total_ratings", Int 30)];
     [("place_id", Str "p4"); ("price_level", Int 3); ("rating", Int 4);
      ("total_ratings", Int 40)]].

Definition cleaned_reviews : DataFrame :=
  from_records
    [[("place_id", Str "p1"); ("rating", Int 5); ("text_length", Int 17);
      ("word_count", Int 3)];
     [("place_id", Str "p1"); ("rating", Int 2); ("text_length", Int 12);
      ("word_count", Int 2)];
     [("place_id", Str "p2"); ("rating", Int 4); ("text_length", Int 10);
      ("word_count", Int 2)]].

End Scenario.

(** ** The shape of a cleaned text *)

Module TextShape.
Import Text.

(** [tidy after_space s]: in [s] every white-space character is the
    ASCII space, no space follows a space (or the start, when
    [after_space] holds), and the last character is no space. *)
Fixpoint tidy (after_space : bool) (s : string) : bool :=
  match s with
  | EmptyString => negb after_space
  | String c s' =>
      if Ascii.eqb c " " then negb after_space && tidy true s'
      else negb (is_space c) && tidy false s'
  end.

(** Words parted by single spaces, and nothing around them. *)
Definition single_spaced (s : string) : bool :=
  String.eqb s "" || tidy true s.


End TextShape.

(** ** The requests of a collection *)

Module Protocol.
Import Frame Query.

(** The token of a response, if it carries one. *)
Definition token_of (r : result response) : option string :=
  match r with
  | Ok resp => next_page_token resp
  | Raise _ => None
  end.

(** The tokens of the [n] responses from number [n0] on. *)
Definition tokens (places_nearby : nat → result response) (n0 n : nat) : list string :=
  omap (λ j, token_of (places_nearby j)) (seq n0 n).

End Protocol.

(** ** What one place gives to the reviews *)

Module ReviewShape.
Import Datetime Frame Query.

Section Details.
Variable place : string → result (option detail).

(** The records the [try] of [collect_reviews] appends for one place,
    taken alone. *)
Definition contribution (place_id : string) : list record :=
  all_reviews (try_place place place_id {| place_name := None; all_reviews := [] |}).1.

End Details.

(** A review whose time converts to a date (or is absent). *)
Definition convertible (r : review) : bool :=
  match review_date_of r with
  | Ok _ => true
  | Raise _ => false
  end.

(** The longest prefix of [l] on which [f] holds. *)
Fixpoint take_while {A} (f : A → bool) (l : list A) : list A :=
  match l with
  | [] => []
  | x :: l' => if f x then x :: take_while f l' else []
  end.

(** The record of a review of a place. *)
Definition record_of (place_id place_name : string) (r : review) : record :=
  review_data place_id place_name r
    (match review_date_of r with Ok d => d | Raise _ => NaN end).

Fixpoint has_slash (s : string) : bool :=
  match s with
  | EmptyString => false
  | String c s' => Ascii.eqb c "/" || has_slash s'
  end.

End ReviewShape.

(** ** The areas ([CafeQuery.__init__], the flattening of the
    configuration) *)

Module Init.
Import Frame.

(** What [yaml.safe_load] gives: for each region, in order, its
    neighborhoods by name, each with its details.  The details are dict
    objects, which the loop changes in place; an object is named by its
    address, and the heap gives the dict at each address (two entries of
    the configuration hold the same address when the file makes one an
    alias of the other). *)
Definition config : Type := list (string * list (string * nat)).
Abbreviation heap := (nat → gmap string cell).

Record entry := { region : string; name : string; details : nat }.

(** The pairs the two nested [for] loops go through, in order. *)
Definition entries (cfg : config) : list entry :=
  rn ← cfg; (λ nd : string * nat,
               {| region := rn.1; name := nd.1; details := nd.2 |}) <$> rn.2.

(** [details['neighborhood_name'] = name; details['region'] = region] *)
Definition tag (region name : string) (d : gmap string cell) : gmap string cell :=
  <["region" := Str region]> (<["neighborhood_name" := Str name]> d).

(** The loop: each turn writes the two tags into the object and appends
    the object to [self.neighborhoods]. *)
Fixpoint init_loop (es : list entry) (h : heap) (neighborhoods : list nat)
    : heap * list nat :=
  match es with
  | [] => (h, neighborhoods)
  | e :: es' =>
      init_loop es' (<[details e := tag (region e) (name e) (h (details e))]> h)
                (neighborhoods ++ [details e])
  end.

(** [self.neighborhoods] once [__init__] is done: the listed objects,
    read in the final heap. *)
Definition neighborhoods (cfg : config) (h : heap) : list (gmap string cell) :=
  let '(h', refs) := init_loop (entries cfg) h [] in
  h' <$> refs.

(** The last entry that holds the object at [ref]. *)
Definition last_holder (ref : nat) (es : list entry) : option entry :=
  last (filter (λ e, details e = ref) es).

End Init.

(** ** The cleaning of one review *)

Module ReviewRow.
Import Datetime Frame Process.

(** What [clean_review_df] makes of one row, taken alone: the seven
    derived cells, from the row's [text] and [time]. *)
Definition clean_row (r : row) : result row :=
  text_clean ← clean_text_cell (get r "text");
  review_date ← to_datetime_cell (get r "time");
  Ok (<["day_of_week" := dt dt_dayofweek review_date]>
      (<["month" := dt dt_month review_date]>
       (<["year" := dt dt_year review_date]>
        (<["review_date" := review_date]>
         (<["word_count" := str_split_len text_clean]>
          (<["text_length" := str_len text_clean]>
           (<["text_clean" := text_clean]> r))))))).

(** A [text] cell the cleaner accepts, and a [time] cell that converts. *)
Definition is_text (c : cell) : bool :=
  match c with
  | NaN | Str _ => true
  | _ => false
  end.

Definition is_epoch (c : cell) : bool :=
  match c with
  | NaN => true
  | Int t => in_bounds t
  | Float q => in_bounds (Qfloor (this q))
  | _ => false
  end.

(** The derived cells of a cleaned row fit together. *)
Definition consistent (r : row) : Prop :=
  (∃ s, get r "text_clean" = Str s
        ∧ get r "text_length" = Int (Z.of_nat (Text.text_length s))
        ∧ get r "word_count" = Int (Z.of_nat (Text.word_count s)))
  ∧ ((get r "review_date" = NaN ∧ get r "year" = NaN
      ∧ get r "month" = NaN ∧ get r "day_of_week" = NaN)
     ∨ (∃ ts, get r "review_date" = Timestamp ts
              ∧ in_bounds ts = true
              ∧ get r "year" = Int (dt_year ts)
              ∧ get r "month" = Int (dt_month ts)
              ∧ get r "day_of_week" = Int (dt_dayofweek ts))).

End ReviewRow.

(** ** The summary ([CafeProcessor.generate_summary_stats]) *)

Module Summary.
Import Frame.

(** What may leave [generate_summary_stats]: one of the exceptions of
    the frames, or the division by zero. *)
Inductive raised : Type :=
| Raised (e : exn)
| ZeroDivisionError.

(** [series.value_counts().to_dict()]: each value that is not missing
    with the number of cells that hold it.  The dict is given by its
    items, one for each distinct value (a dict is compared without regard
    to the order of its items). *)
Definition occurrences (v : cell) (vals : list cell) : nat :=
  length (filter (λ x, x = v) vals).

Definition value_counts (vals : list cell) : list (cell * nat) :=
  (λ v, (v, occurrences v vals)) <$> unique (filter (λ v, v ≠ NaN) vals).

Record stats := {
  total_cafes : nat;
  total_reviews : nat;
  cafes_by_region : list (cell * nat);
  cafes_by_neighborhood : list (cell * nat);
  avg_reviews_per_cafe : Q;
  missing_reviews : nat }.

(** [generate_summary_stats]; the items of the dict are evaluated in the
    order they are written.  [cafes_df] and [reviews_df] are the frames
    of the processor. *)
Definition generate_summary_stats (cafes_df reviews_df : DataFrame)
    : raised + stats :=
  let total_cafes := len cafes_df in
  let total_reviews := len reviews_df in
  match col "region" cafes_df with
  | Raise e => inl (Raised e)
  | Ok region =>
      match col "neighborhood" cafes_df with
      | Raise e => inl (Raised e)
      | Ok neighborhood =>
          if decide (len cafes_df = 0) then inl ZeroDivisionError
          else
            match col "place_id" cafes_df with
            | Raise e => inl (Raised e)
            | Ok place_id =>
                match col "place_id" reviews_df with
                | Raise e => inl (Raised e)
                | Ok reviewed =>
                    inr {| total_cafes := total_cafes;
                           total_reviews := total_reviews;
                           cafes_by_region := value_counts region;
                           cafes_by_neighborhood := value_counts neighborhood;
                           avg_reviews_per_cafe :=
                             (inject_Z (Z.of_nat (len reviews_df))
                              / inject_Z (Z.of_nat (len cafes_df)))%Q;
                           missing_reviews :=
                             length (filter (λ id, id ∉ reviewed) place_id) |}
                end
            end
      end
  end.


End Summary.

(** ** The collection script ([collect_all_data]) *)

Module Script.
Import Frame Query.

(** [df.empty]: no row or no column. *)
Definition df_empty (df : DataFrame) : bool :=
  match columns df, rows df with
  | [], _ | _, [] => true
  | _, _ => false
  end.

(** [df[cs]] for a list of labels *)
Definition select (cs : list string) (df : DataFrame) : result DataFrame :=
  match missing cs df with
  | Some c => Raise (KeyError c)
  | None =>
      Ok {| columns := cs;
            rows := (λ r : row, filter (λ kv, kv.1 ∈ cs) r) <$> rows df |}
  end.

(** [series.tolist()] for the ids of the places.  The provider gives
    every place a string for id; a cell that holds none is outside the
    model (it reads as the empty id). *)
Definition tolist (cells : list cell) : list string :=
  (λ c, match c with Str s => s | _ => "" end) <$> cells.

(** The labels of a merged frame: a label of both frames other than the
    key gets the suffix [_x] on the left and [_y] on the right. *)
Definition left_label (on : string) (right : DataFrame) (c : string) : string :=
  if decide (c ≠ on ∧ c ∈ columns right) then c +:+ "_x" else c.

Definition right_label (left : DataFrame) (c : string) : string :=
  if decide (c ∈ columns left) then c +:+ "_y" else c.

Definition relabel (f : string → string) (r : row) : row :=
  list_to_map ((λ kv : string * cell, (f kv.1, kv.2)) <$> map_to_list r).

(** [left.merge(right, on=on, how='left')]: every row of the left
    frame, in order, once for each row of the right frame with the same
    key, or once alone when there is none. *)
Definition merge (left right : DataFrame) (on : string) : result DataFrame :=
  if decide (on ∈ columns right ∧ on ∈ columns left) then
    Ok {| columns := (left_label on right <$> columns left)
                     ++ (right_label left <$> filter (λ c, c ≠ on) (columns right));
          rows :=
            l ← rows left;
            let l' := relabel (left_label on right) l in
            match filter (λ r, get r on = get l on) (rows right) with
            | [] => [l']
            | matches =>
                (λ r, l' ∪ relabel (right_label left) (delete on r)) <$> matches
            end |}
  else Raise (KeyError on).

(** An area with the four keys the script and [collect_cafes] read. *)
Definition configured (neighborhood : gmap string cell) : Prop :=
  is_Some (neighborhood !! "neighborhood_name")
  ∧ is_Some (neighborhood !! "region")
  ∧ is_Some (neighborhood !! "center")
  ∧ is_Some (neighborhood !! "radius").

Section Run.
Variable places_nearby : nat → result response.
Variable place : string → result (option detail).

(** What the script does with the places of one area: their reviews,
    tagged with the area. *)
Definition area_reviews (cafes_df : DataFrame) : result DataFrame :=
  place_ids ← col "place_id" cafes_df;
  reviews_df ← collect_reviews place (tolist place_ids);
  tags ← select ["place_id"; "neighborhood"; "region"] cafes_df;
  merge reviews_df tags "place_id".

(** The [for] loop over the areas; the message it logs first reads the
    area's name and region. *)
Fixpoint areas_loop (fuel : nat) (neighborhoods : list (gmap string cell))
    (all_cafes_dfs all_reviews_dfs : list DataFrame) (log : list request)
    : outcome (list DataFrame * list DataFrame) * list request :=
  match neighborhoods with
  | [] => (Done (Ok (all_cafes_dfs, all_reviews_dfs)), log)
  | neighborhood :: rest =>
      match neighborhood !! "neighborhood_name" with
      | None => (Done (Raise (KeyError "neighborhood_name")), log)
      | Some _ =>
          match neighborhood !! "region" with
          | None => (Done (Raise (KeyError "region")), log)
          | Some _ =>
              match collect_cafes places_nearby fuel neighborhood log with
              | (Done (Ok cafes_df), log') =>
                  if df_empty cafes_df
                  then areas_loop fuel rest all_cafes_dfs all_reviews_dfs log'
                  else
                    match area_reviews cafes_df with
                    | Ok reviews_df =>
                        areas_loop fuel rest (all_cafes_dfs ++ [cafes_df])
                                   (all_reviews_dfs ++ [reviews_df]) log'
                    | Raise e => (Done (Raise e), log')
                    end
              | (Done (Raise e), log') => (Done (Raise e), log')
              | (Fetching, log') => (Fetching, log')
              end
          end
      end
  end.

(** [collect_all_data], up to the two frames it saves and returns. *)
Definition collect_all_data (fuel : nat) (neighborhoods : list (gmap string cell))
    : outcome (DataFrame * DataFrame) * list request :=
  match areas_loop fuel neighborhoods [] [] [] with
  | (Done (Ok (all_cafes_dfs, all_reviews_dfs)), log) =>
      (Done (final_cafes ← concat all_cafes_dfs;
             final_reviews ← concat all_reviews_dfs;
             final_cafes ← drop_duplicates "place_id" final_cafes;
             Ok (final_cafes, final_reviews)),
       log)
  | (Done (Raise e), log) => (Done (Raise e), log)
  | (Fetching, log) => (Fetching, log)
  end.

End Run.

End Script.

(** ** More scenarios *)

Module Cases.
Import Datetime Frame Query.

(** A places table with a missing price level and a missing number of
    ratings. *)
Definition sparse_cafes : DataFrame :=
  from_records
    [[("place_id", Str "p1"); ("price_level", NaN); ("rating", Int 4);
      ("total_ratings", Int 10)];
     [("place_id", Str "p2"); ("price_level", Int 1); ("rating", Int 5);
      ("total_ratings", NaN)]].

(** A provider whose third request fails, and one whose second page
    has no ['results'] key. *)
Definition third_fails : nat → result response :=
  λ n, if decide (n < 2)
       then Ok {| results := Some [Scenario.cafe "a"]; next_page_token := Some "next" |}
       else Raise (ProviderError "timeout").

Definition second_page_bare : nat → result response :=
  λ n, if decide (n < 1)
       then Ok {| results := Some [Scenario.cafe "a"]; next_page_token := Some "next" |}
       else Ok {| results := None; next_page_token := None |}.

(** Place details in which the second of three reviews has a time
    beyond the range of a timestamp. *)
Definition bad_time_details : string → result (option detail) :=
  λ place_id,
    Ok (Some {| name := None;
                reviews := Some [Scenario.a_review "1";
                                 {| time := Some 99999999999%Z; author_url := None;
                                    rating := None; text := None;
                                    relative_time_description := None |};
                                 Scenario.a_review "3"] |}).

(** A configuration of two regions and three neighborhoods, each with
    details of its own, and the heap that holds them. *)
Definition sg_config : Init.config :=
  [("Central", [("Bugis", 0); ("Tiong Bahru", 1)]); ("East", [("Katong", 2)])].

Definition sg_heap : Init.heap :=
  λ ref, {[ "center" := Nums [Q2Qc (13 # 10); Q2Qc (1038 # 10)];
            "radius" := Int (800 + Z.of_nat ref) ]}.


Definition some_reviews : DataFrame :=
  from_records
    [[("place_id", Str "p1"); ("rating", Int 5)];
     [("place_id", Str "p1"); ("rating", Int 3)];
     [("place_id", Str "p3"); ("rating", Int 4)];
     [("place_id", Str "p3"); ("rating", Int 4)]].

(** A places table with its columns and no row. *)
Definition no_cafes : DataFrame :=
  {| columns := ["place_id"; "neighborhood"; "region"]; rows := [] |}.

(** Two areas, a provider that answers each nearby search with one
    page of the same two places, and place details with one review
    each. *)
Definition katong : gmap string cell :=
  {[ "center" := Nums [Q2Qc (13 # 10); Q2Qc (1039 # 10)];
     "radius" := Int 900;
     "neighborhood_name" := Str "Katong";
     "region" := Str "East" ]}.

Definition one_page : nat → result response :=
  λ n, Ok {| results := Some [Scenario.cafe "a"; Scenario.cafe "b"];
             next_page_token := None |}.

Definition one_review_each : string → result (option detail) :=
  λ place_id,
    Ok (Some {| name := Some ("Cafe " +:+ place_id);
                reviews := Some [Scenario.a_review place_id] |}).

(** Place details without any review. *)
Definition no_review : string → result (option detail) :=
  λ place_id, Ok (Some {| name := Some ("Cafe " +:+ place_id); reviews := None |}).

(** A provider that knows no place. *)
Definition no_results : nat → result response :=
  λ n, Ok {| results := None; next_page_token := None |}.

End Cases.
(** * Properties *)

(** ** Text cleaning *)

Module TextFacts.
Import Text.

Lemma lower_char_idem c : lower_char (lower_char c) = lower_char c.
Proof. by destruct c as [[] [] [] [] [] [] [] []]. Qed.

Lemma is_space_lower_char c : is_space (lower_char c) = is_space c.
Proof. by destruct c as [[] [] [] [] [] [] [] []]. Qed.

Lemma lower_idem s : lower (lower s) = lower s.
Proof. induction s as [|c s IH]; simpl; [done|]. by rewrite lower_char_idem, IH. Qed.

Lemma append_cons c s t : String c s +:+ t = String c (s +:+ t).
Proof. done. Qed.

Lemma append_nil t : "" +:+ t = t.
Proof. done. Qed.

Lemma lower_app s t : lower (s +:+ t) = lower s +:+ lower t.
Proof.
  induction s as [|c s IH]; [done|].
  rewrite append_cons. cbn [lower]. by rewrite append_cons, IH.
Qed.

Lemma split_cons c c' s :
  split (String c (String c' s)) =
    if is_space c then split (String c' s)
    else if is_space c' then String c "" :: split (String c' s)
    else match split (String c' s) with
         | w :: ws => String c w :: ws
         | [] => [String c ""]
         end.
Proof. done. Qed.

Lemma split_one c : split (String c "") = if is_space c then [] else [String c ""].
Proof. done. Qed.

Lemma split_lower s : split (lower s) = lower <$> split s.
Proof.
  induction s as [|c s IH]; [done|].
  destruct s as [|c' s'].
  - cbn [lower]. rewrite !split_one, is_space_lower_char. by destruct (is_space c).
  - revert IH. cbn [lower]. intros IH. rewrite !split_cons, !is_space_lower_char, IH.
    destruct (is_space c); [done|]. destruct (is_space c'); [done|].
    by destruct (split (String c' s')).
Qed.

Lemma join_cons sep w w' ws :
  join sep (w :: w' :: ws) = w +:+ sep +:+ join sep (w' :: ws).
Proof. done. Qed.

Lemma join_lower ws : lower (join " " ws) = join " " (lower <$> ws).
Proof.
  induction ws as [|w ws IH]; [done|].
  destruct ws as [|w' ws]; [done|].
  rewrite join_cons, !lower_app, IH. done.
Qed.

Lemma spaceless_cons c w :
  spaceless (String c w) = true ↔ is_space c = false ∧ spaceless w = true.
Proof. simpl. rewrite andb_true_iff, negb_true_iff. done. Qed.

Lemma split_word_sep w t :
  word w → split (w +:+ String " " t) = w :: split t.
Proof.
  intros [Hne Hsp]. induction w as [|c w IH]; [done|].
  apply spaceless_cons in Hsp as [Hc Hw].
  destruct w as [|c' w'].
  - rewrite append_cons, append_nil, split_cons, Hc. done.
  - pose proof Hw as Hw'. apply spaceless_cons in Hw' as [Hc' _].
    rewrite append_cons in IH. rewrite !append_cons.
    rewrite split_cons, Hc, Hc', IH; done.
Qed.

Lemma split_word w : word w → split w = [w].
Proof.
  intros [Hne Hsp]. induction w as [|c w IH]; [done|].
  apply spaceless_cons in Hsp as [Hc Hw].
  destruct w as [|c' w'].
  - by rewrite split_one, Hc.
  - pose proof Hw as Hw'. apply spaceless_cons in Hw' as [Hc' _].
    rewrite split_cons, Hc, Hc', IH; done.
Qed.

Lemma split_join ws : Forall word ws → split (join " " ws) = ws.
Proof.
  induction 1 as [|w ws Hw Hws IH]; [done|].
  destruct ws as [|w' ws].
  - by apply split_word.
  - rewrite join_cons.
    change (" " +:+ join " " (w' :: ws)) with (String " " (join " " (w' :: ws))).
    rewrite split_word_sep by done. by rewrite IH.
Qed.

Lemma split_words s : Forall word (split s).
Proof.
  induction s as [|c s IH]; [constructor|].
  destruct s as [|c' s'].
  - rewrite split_one. destruct (is_space c) eqn:Hc; [constructor|].
    repeat constructor; [done|]. by apply spaceless_cons.
  - rewrite split_cons.
    destruct (is_space c) eqn:Hc; [done|].
    assert (word (String c "")) as Hone.
    { split; [done|]. by apply spaceless_cons. }
    destruct (is_space c') eqn:Hc'; [by constructor|].
    destruct (split (String c' s')) as [|w ws];
      [constructor; [exact Hone | constructor] |].
    inversion IH as [|? ? [Hne Hsp] Hws]; subst.
    constructor; [|done]. split; [done|]. by apply spaceless_cons.
Qed.

Lemma word_lower w : word w → word (lower w).
Proof.
  intros [Hne Hsp]. split.
  - by destruct w.
  - clear Hne. induction w as [|c w IH]; [done|].
    simpl in *. rewrite is_space_lower_char.
    apply andb_true_iff in Hsp as [-> Hw]. by rewrite IH.
Qed.

(** The text [clean_review_text] computes for a string. *)
Lemma clean_review_text_eq t :
  clean_review_text (Some t) = join " " (lower <$> split t).
Proof.
  unfold clean_review_text. destruct (String.eqb_spec t "") as [->|_]; [done|].
  by rewrite split_lower.
Qed.

End TextFacts.

Module TextClaims.
Import Text TextFacts Frame Process Scenario.

Lemma fmap_lower_idem (ws : list string) : lower <$> (lower <$> ws) = lower <$> ws.
Proof. rewrite <- list_fmap_compose. apply list_fmap_ext. intros _ w _. apply lower_idem. Qed.

(** C8: [clean_review_text] is idempotent, applying it to its own
    result changes nothing, and it maps a missing text and the empty
    text to the empty string. *)
Theorem clean_review_text_idempotent :
  (∀ text : option string,
     clean_review_text (Some (clean_review_text text)) = clean_review_text text)
  ∧ clean_review_text None = ""
  ∧ clean_review_text (Some "") = "".
Proof.
  split; [|done]. intros [t|]; [|done].
  rewrite !clean_review_text_eq.
  rewrite split_join.
  - by rewrite fmap_lower_idem.
  - apply Forall_fmap. eapply Forall_impl; [apply split_words|].
    intros w Hw. by apply word_lower.
Qed.

(** C9: the text ["  Great Coffee!!  \n Nice "] cleans to
    ["great coffee!! nice"], of length 19 and 3 words, both through the
    cell functions and through [clean_review_df] on a table that holds
    it. *)
Theorem great_coffee_cleaned :
  clean_review_text (Some great_coffee) = "great coffee!! nice"
  ∧ text_length (clean_review_text (Some great_coffee)) = 19
  ∧ word_count (clean_review_text (Some great_coffee)) = 3
  ∧ (df ← clean_review_df one_review;
     Ok ((λ r, (get r "text_clean", get r "text_length", get r "word_count"))
           <$> rows df))
    = Ok [(Str "great coffee!! nice", Int 19, Int 3)].
Proof. repeat split; vm_compute; reflexivity. Qed.

End TextClaims.

(** ** Frames and deduplication *)

Module FrameFacts.
Import Frame Notions.

Lemma bind_Ok {A B} (m : result A) (k : A → result B) b :
  m ≫= k = Ok b → ∃ a, m = Ok a ∧ k a = Ok b.
Proof. destruct m as [a|e]; [by exists a | done]. Qed.

Lemma mapM_Ok_length {A B} (f : A → result B) l l' :
  mapM f l = Ok l' → length l' = length l.
Proof.
  revert l'. induction l as [|x l IH]; intros l' H.
  - by inversion H.
  - cbn in H. apply bind_Ok in H as (y & _ & H).
    apply bind_Ok in H as (k & Hk & H). inversion H; subst.
    simpl. f_equal. by apply IH.
Qed.

Section drop_dups.
Context {A K : Type} `{EqDecision K} (key : A → K).

Lemma elem_of_drop_dups seen l x :
  x ∈ drop_dups key seen l → x ∈ l ∧ key x ∉ seen.
Proof.
  revert seen. induction l as [|y l IH]; intros seen; simpl.
  - by intros ?%elem_of_nil.
  - case_decide as Hy.
    + intros [? ?]%IH. split; [by right | done].
    + intros [->|Hx]%elem_of_cons; [split; [by left | done]|].
      apply IH in Hx as [? Hk]. split; [by right|].
      intros ?. apply Hk. by right.
Qed.

Lemma drop_dups_keys seen l k :
  k ∈ key <$> drop_dups key seen l ↔ k ∈ key <$> l ∧ k ∉ seen.
Proof.
  revert seen. induction l as [|y l IH]; intros seen; simpl.
  - rewrite elem_of_nil. tauto.
  - case_decide as Hy; rewrite ?fmap_cons, !elem_of_cons, IH.
    + split; [tauto|]. intros [[->|?] ?]; tauto.
    + rewrite elem_of_cons. destruct (decide (k = key y)) as [->|]; tauto.
Qed.

Lemma drop_dups_NoDup seen l : NoDup (key <$> drop_dups key seen l).
Proof.
  revert seen. induction l as [|y l IH]; intros seen; simpl.
  - constructor.
  - case_decide as Hy; [apply IH|].
    rewrite fmap_cons. apply NoDup_cons. split; [|apply IH].
    rewrite drop_dups_keys. intros [_ Hk]. apply Hk. by left.
Qed.

Lemma drop_dups_first seen l k :
  k ∉ seen →
  first_with key k (drop_dups key seen l) = first_with key k l.
Proof.
  unfold first_with. revert seen.
  induction l as [|y l IH]; intros seen Hk; [done|]. simpl.
  case_decide as Hy.
  - rewrite (filter_cons_False _ y) by (by intros <-). by apply IH.
  - destruct (decide (key y = k)) as [Heq|Hne].
    + by rewrite !filter_cons_True.
    + rewrite !filter_cons_False by done. apply IH.
      rewrite elem_of_cons. intros [?|?]; [by subst | done].
Qed.

Lemma drop_dups_sublist seen l : sublist (drop_dups key seen l) l.
Proof.
  revert seen. induction l as [|y l IH]; intros seen; simpl.
  - constructor.
  - case_decide; [by apply sublist_cons | by apply sublist_skip].
Qed.

End drop_dups.

Lemma drop_dups_deduplicated (l : list row) :
  deduplicated l (drop_dups place_id [] l).
Proof.
  split.
  - apply drop_dups_NoDup.
  - intros k. rewrite drop_dups_keys. rewrite elem_of_nil. tauto.
  - intros k. apply drop_dups_first. apply not_elem_of_nil.
  - apply drop_dups_sublist.
Qed.

Lemma elem_of_unique {A} `{EqDecision A} (l : list A) x : x ∈ unique l ↔ x ∈ l.
Proof.
  unfold unique. pose proof (drop_dups_keys id [] l x) as Hk.
  rewrite !list_fmap_id in Hk. rewrite Hk, elem_of_nil. tauto.
Qed.

Lemma drop_duplicates_Ok c df df' :
  drop_duplicates c df = Ok df' →
  c ∈ columns df ∧ columns df' = columns df
  ∧ rows df' = drop_dups (λ r, get r c) [] (rows df).
Proof. unfold drop_duplicates. case_decide; [|done]. by intros [= <-]. Qed.

End FrameFacts.

Module DedupClaims.
Import Frame Notions FrameFacts Scenario.

(** C3: [drop_duplicates(subset=['place_id'])], the deduplication of
    [collect_all_data] and of [clean_cafe_df], leaves exactly one row
    for each distinct [place_id] of its input (no [place_id] twice, none
    lost), and the row it leaves for a [place_id] is the first row of
    the input with it, tags included, in the order of collection. *)
Theorem dedup_keeps_first_occurrence (df : DataFrame) :
  "place_id" ∈ columns df →
  ∃ df', drop_duplicates "place_id" df = Ok df'
         ∧ columns df' = columns df
         ∧ deduplicated (rows df) (rows df').
Proof.
  intros Hcol. unfold drop_duplicates. rewrite decide_True by done.
  eexists. split; [done|]. split; [done|]. apply drop_dups_deduplicated.
Qed.

Lemma dedup_keeps_first_occurrence_witness :
  ∃ df', drop_duplicates "place_id" two_areas = Ok df'
         ∧ columns df' = columns two_areas
         ∧ deduplicated (rows two_areas) (rows df').
Proof.
  apply (dedup_keeps_first_occurrence two_areas).
  apply (bool_decide_unpack _). vm_compute. exact I.
Defined.

(** The same for the frames of the areas, combined as [collect_all_data]
    combines them: the rows of all areas in the order of collection,
    deduplicated. *)
Lemma final_cafes_deduplicated (all_cafes_dfs : list DataFrame) (df : DataFrame) :
  df ∈ all_cafes_dfs → "place_id" ∈ columns df →
  ∃ final, Collect.final_cafes all_cafes_dfs = Ok final
           ∧ deduplicated (all_cafes_dfs ≫= rows) (rows final).
Proof.
  intros Hdf Hcol.
  assert ("place_id" ∈ unique (all_cafes_dfs ≫= columns)) as Hin.
  { apply elem_of_unique, list_elem_of_bind. eauto. }
  unfold Collect.final_cafes, concat.
  destruct all_cafes_dfs as [|df0 dfs]; [by apply elem_of_nil in Hdf|].
  cbn. unfold drop_duplicates. cbn [columns rows].
  rewrite decide_True by exact Hin.
  eexists. split; [done|]. apply drop_dups_deduplicated.
Qed.

(** The scenario of the two overlapping areas: three rows are left of
    the four, and the shared place keeps the tags of area A. *)
Example two_areas_deduplicated :
  (df ← Collect.final_cafes [area_A; area_B];
   Ok ((λ r, (get r "place_id", get r "neighborhood", get r "region")) <$> rows df))
  = Ok [(Str "p1", Str "A", Str "Central");
        (Str "p2", Str "A", Str "Central");
        (Str "p3", Str "B", Str "East")].
Proof. vm_compute. reflexivity. Qed.

End DedupClaims.

(** ** The review cleaner *)

Module ReviewFacts.
Import Frame Notions FrameFacts Process.

Lemma col_Ok c df vs :
  col c df = Ok vs → c ∈ columns df ∧ vs = (λ r, get r c) <$> rows df.
Proof. unfold col. case_decide; [|done]. by intros [= <-]. Qed.

Lemma col_length c df vs : col c df = Ok vs → length vs = length (rows df).
Proof. intros [_ ->]%col_Ok. apply length_fmap. Qed.

Lemma elem_of_columns_set_col c' c vs df :
  c' ∈ columns (set_col c vs df) ↔ c' = c ∨ c' ∈ columns df.
Proof.
  unfold set_col; simpl. case_decide as Hc.
  - split; [tauto|]. by intros [->|?].
  - rewrite elem_of_app, list_elem_of_singleton. tauto.
Qed.

Lemma zip_insert_agree c (l : list row) (vs : list cell) :
  length vs = length l →
  Forall2 (agree_outside [c]) l (zip_with (λ (r : row) v, <[c := v]> r) l vs).
Proof.
  revert vs. induction l as [|r l IH]; intros [|v vs] Hlen; try done.
  simpl. constructor; [|apply IH; by inversion Hlen].
  intros c' Hc'. unfold get. rewrite lookup_insert_ne; [done|].
    intros ->. apply Hc'. by left.
Qed.

Lemma set_col_agree c vs df cs :
  c ∈ cs → length vs = length (rows df) →
  Forall2 (agree_outside cs) (rows df) (rows (set_col c vs df))
  ∧ length (rows (set_col c vs df)) = length (rows df).
Proof.
  intros Hc Hlen. split.
  - eapply Forall2_impl; [by apply zip_insert_agree|].
    intros r r' Hr c' Hc'. apply Hr. intros ->%list_elem_of_singleton. done.
  - simpl. rewrite length_zip_with_l_eq; done.
Qed.

Lemma agree_outside_trans cs (l1 l2 l3 : list row) :
  Forall2 (agree_outside cs) l1 l2 → Forall2 (agree_outside cs) l2 l3 →
  Forall2 (agree_outside cs) l1 l3.
Proof.
  apply Forall2_trans. intros r1 r2 r3 H12 H23 c Hc.
  rewrite H23, H12; done.
Qed.

Lemma agree_outside_keys (l l' : list row) :
  Forall2 (agree_outside derived) l l' → place_id <$> l' = place_id <$> l.
Proof.
  induction 1 as [|r r' l l' Hr _ IH]; [done|].
  rewrite !fmap_cons, IH. f_equal. apply Hr.
  apply (bool_decide_unpack _). by vm_compute.
Qed.

Lemma set_col_step c vs df (l0 : list row) :
  c ∈ derived → length vs = length (rows df) →
  Forall2 (agree_outside derived) l0 (rows df) →
  Forall2 (agree_outside derived) l0 (rows (set_col c vs df)).
Proof.
  intros Hc Hlen H0. eapply agree_outside_trans; [exact H0|].
  by apply set_col_agree.
Qed.

Ltac in_derived := apply (bool_decide_unpack _); by vm_compute.

Ltac lengths :=
  repeat first
    [ rewrite length_fmap
    | erewrite mapM_Ok_length by eassumption
    | erewrite col_length by eassumption ];
  reflexivity.

(** When [clean_review_df] returns, its rows are those
    [drop_duplicates] kept, one for one, with the derived columns
    written. *)
Lemma clean_review_df_rows reviews_df df :
  clean_review_df reviews_df = Ok df →
  ∃ df0, drop_duplicates "place_id" reviews_df = Ok df0
         ∧ Forall2 (agree_outside derived) (rows df0) (rows df).
Proof.
  unfold clean_review_df. intros H.
  apply bind_Ok in H as (df0 & Hdrop & H). exists df0. split; [done|].
  apply bind_Ok in H as (text & Htext & H).
  apply bind_Ok in H as (text_clean & Hclean & H). cbv zeta in H.
  apply bind_Ok in H as (text_clean1 & Htc1 & H).
  apply bind_Ok in H as (text_clean2 & Htc2 & H).
  apply bind_Ok in H as (time & Htime & H).
  apply bind_Ok in H as (review_date & Hdate & H).
  apply bind_Ok in H as (rd1 & Hrd1 & H).
  apply bind_Ok in H as (rd2 & Hrd2 & H).
  apply bind_Ok in H as (rd3 & Hrd3 & H).
  injection H as <-.
  repeat (apply set_col_step; [in_derived | lengths |]).
  apply Forall2_same_length_lookup_2; [done|]. intros i r r' ? ? c _. congruence.
Qed.

End ReviewFacts.

Module ReviewClaims.
Import Frame Notions FrameFacts Query Process ReviewFacts Scenario.

Lemma first_with_NoDup {A K} `{EqDecision K} (key : A → K) (l : list A) x :
  NoDup (key <$> l) → x ∈ l → first_with key (key x) l = Some x.
Proof.
  unfold first_with. induction l as [|y l IH]; [by intros _ ?%elem_of_nil|].
  rewrite fmap_cons, NoDup_cons. intros [Hy Hl] [->|Hx]%elem_of_cons.
  - by rewrite filter_cons_True.
  - rewrite filter_cons_False; [by apply IH|].
    intros Heq. apply Hy. rewrite Heq. by apply list_elem_of_fmap_2.
Qed.

Lemma Forall2_Forall_witness {A B} (P : A → B → Prop) l l' :
  Forall2 P l l' → Forall (λ y, ∃ x, x ∈ l ∧ P x y) l'.
Proof.
  induction 1 as [|x y l l' Hxy _ IH]; constructor.
  - exists x. split; [by left | done].
  - eapply Forall_impl; [exact IH|]. intros y' (x' & ? & ?).
    exists x'. split; [by right | done].
Qed.

(** C6: when [clean_review_df] has run, the reviews table holds one
    row for each distinct [place_id] of its input and no more: the ids
    of its rows are distinct, they are the ids of the input, and each
    row is the first input row of its place with the derived columns
    written, so that every later review of that place is gone. *)
Theorem one_review_row_per_place (reviews_df df : DataFrame) :
  clean_review_df reviews_df = Ok df →
  NoDup (place_id <$> rows df)
  ∧ (∀ k, k ∈ place_id <$> rows df ↔ k ∈ place_id <$> rows reviews_df)
  ∧ Forall (λ r', ∃ r, first_with place_id (place_id r') (rows reviews_df) = Some r
                       ∧ agree_outside derived r r')
           (rows df).
Proof.
  intros (df0 & Hdrop & Hrows)%clean_review_df_rows.
  apply drop_duplicates_Ok in Hdrop as (_ & _ & Hdf0).
  pose proof (drop_dups_deduplicated (rows reviews_df)) as [Hnd Hids Hfirst _].
  change (drop_dups place_id [] (rows reviews_df)) with
    (drop_dups (λ r, get r "place_id") [] (rows reviews_df)) in *.
  rewrite <- Hdf0 in *.
  pose proof (agree_outside_keys _ _ Hrows) as Hkeys.
  split; [by rewrite Hkeys|]. split; [intros k; by rewrite Hkeys|].
  eapply Forall_impl; [exact (Forall2_Forall_witness _ _ _ Hrows)|].
  intros r' (r & Hr & Hagree). exists r. split; [|done].
  assert (place_id r' = place_id r) as ->.
  { apply Hagree. apply (bool_decide_unpack _). by vm_compute. }
  rewrite <- Hfirst. by apply first_with_NoDup.
Qed.

Lemma one_review_row_per_place_witness :
  ∃ df, clean_review_df same_place_reviews = Ok df
        ∧ NoDup (place_id <$> rows df)
        ∧ (∀ k, k ∈ place_id <$> rows df ↔ k ∈ place_id <$> rows same_place_reviews)
        ∧ Forall (λ r', ∃ r, first_with place_id (place_id r') (rows same_place_reviews)
                              = Some r
                             ∧ agree_outside derived r r')
                 (rows df).
Proof.
  eexists. split; [vm_compute; reflexivity|].
  apply (one_review_row_per_place same_place_reviews).
  vm_compute; reflexivity.
Defined.

(** Of the two reviews of [p1] the one by author 101 is left, with its
    derived columns; the review of [p2] has no time, and no year, month
    or day of the week. *)
Example same_place_reviews_cleaned :
  (df ← clean_review_df same_place_reviews;
   Ok ((λ r, (get r "place_id", get r "author_id", get r "text_clean",
              get r "year", get r "month", get r "day_of_week")) <$> rows df))
  = Ok [(Str "p1", Str "101", Str "lovely flat white", Int 2023, Int 11, Int 1);
        (Str "p2", Str "103", Str "good beans", NaN, NaN, NaN)].
Proof. vm_compute. reflexivity. Qed.

Section Details.
Variable place : string → result (option detail).

Lemma each_review_records place_id place_name rs st :
  review_records (all_reviews st) →
  review_records (all_reviews (each_review place_id place_name rs st).1).
Proof.
  revert st. induction rs as [|r rs IH]; intros st Hst; [done|]. simpl.
  destruct (review_date_of r) as [d|e]; [|done].
  apply IH. simpl. apply Forall_app. split; [done|]. by repeat constructor.
Qed.

Lemma try_place_records place_id st :
  review_records (all_reviews st) →
  review_records (all_reviews (try_place place place_id st).1).
Proof.
  intros Hst. unfold try_place.
  destruct (place place_id) as [[res|]|e]; [|done..].
  by apply each_review_records.
Qed.

Lemma collect_reviews_loop_records place_ids st recs :
  review_records (all_reviews st) →
  collect_reviews_loop place place_ids st = Ok recs →
  review_records recs.
Proof.
  revert st. induction place_ids as [|p ps IH]; intros st Hst; simpl.
  - by intros [= <-].
  - pose proof (try_place_records p st Hst) as Hst'.
    destruct (try_place place p st) as [st' [[]|e]]; simpl in Hst'.
    + by apply IH.
    + destruct (place_name st'); [by apply IH | done].
Qed.

Lemma collect_reviews_columns place_ids df c :
  collect_reviews place place_ids = Ok df → c ∈ columns df → c ∈ review_keys.
Proof.
  unfold collect_reviews. intros (recs & Hloop & [= <-])%bind_Ok. simpl.
  apply collect_reviews_loop_records in Hloop; [|constructor].
  unfold unique. intros [Hc _]%elem_of_drop_dups.
  apply list_elem_of_bind in Hc as (rec & Hc & Hrec).
  unfold review_records in Hloop. rewrite Forall_forall in Hloop.
  by rewrite <- (Hloop rec Hrec).
Qed.

End Details.

Lemma col_missing c df : c ∉ columns df → col c df = Raise (KeyError c).
Proof. intros. unfold col. by rewrite decide_False. Qed.

(** Without a [time] column [clean_review_df] raises. *)
Lemma clean_review_df_needs_time df :
  "time" ∉ columns df → raises (clean_review_df df).
Proof.
  intros Htime. unfold clean_review_df, raises.
  destruct (drop_duplicates "place_id" df) as [df0|e] eqn:Hdrop; [|by eexists].
  apply drop_duplicates_Ok in Hdrop as (_ & Hcols & _). cbn.
  destruct (col "text" df0) as [text|e]; [|by eexists]. cbn.
  destruct (mapM clean_text_cell text) as [text_clean|e]; [|by eexists]. cbn.
  destruct (col "text_clean" _) as [tc1|e]; [|by eexists]. cbn.
  destruct (col "text_clean" _) as [tc2|e]; [|by eexists]. cbn.
  rewrite col_missing; [by eexists|].
  rewrite !elem_of_columns_set_col, Hcols. intros [?|[?|[?|?]]]; done.
Qed.

(** C7, on the code: [clean_review_df] reads the epoch seconds of a
    column [time], which no table of [collect_reviews] has (it holds the
    date as [review_date]); on every table [collect_reviews] returns,
    [clean_review_df] raises and derives nothing. *)
Theorem clean_review_df_raises_on_collected place place_ids :
  raises (collect_reviews place place_ids ≫= clean_review_df).
Proof.
  destruct (collect_reviews place place_ids) as [df|e] eqn:Hdf; [|by eexists].
  cbn. apply clean_review_df_needs_time.
  intros Hc%(collect_reviews_columns _ _ _ _ Hdf). revert Hc.
  apply (bool_decide_unpack _). by vm_compute.
Qed.

End ReviewClaims.

(** ** The place collector *)

Module CollectorFacts.
Import Frame Query Notions.

Section Nearby.
Variable places_nearby : nat → result response.

Lemma pages_S n0 n :
  pages places_nearby n0 (S n)
  = page_results (places_nearby n0) ++ pages places_nearby (S n0) n.
Proof. done. Qed.

Lemma pages_length n0 n :
  (∀ j, length (page_results (places_nearby j)) ≤ 20) →
  length (pages places_nearby n0 n) ≤ 20 * n.
Proof.
  intros Hpage. revert n0. induction n as [|n IH]; intros n0; [done|].
  rewrite pages_S, length_app. specialize (IH (S n0)). specialize (Hpage n0). lia.
Qed.

(** The loop stops at the first response without a token: from the
    response number [n0 + m], [d] responses further. *)
Lemma paginate_stops n0 k :
  (∀ j, j < k → page_with_token (places_nearby (n0 + j))) →
  last_page (places_nearby (n0 + k)) →
  ∀ d fuel m resp all_cafes log,
    m + d = k → d ≤ fuel →
    places_nearby (n0 + m) = Ok resp →
    length log = n0 + S m →
    ∃ log',
      paginate places_nearby fuel resp all_cafes log
      = (Done (Ok (all_cafes ++ pages places_nearby (n0 + S m) d)), log')
      ∧ length log' = n0 + S k.
Proof.
  intros Htok Hlast. induction d as [|d IH];
    intros fuel m resp all_cafes log Hk Hfuel Hresp Hlog.
  - assert (m = k) as -> by lia.
    destruct Hlast as (resp' & rs & Heq & _ & Hnone).
    rewrite Hresp in Heq. injection Heq as <-.
    exists log. destruct fuel; simpl; rewrite Hnone, app_nil_r; done.
  - destruct (Htok m) as (resp0 & rs0 & token & Heq & _ & Htoken); [lia|].
    rewrite Hresp in Heq. injection Heq as <-.
    destruct fuel as [|fuel]; [lia|]. simpl. rewrite Htoken, Hlog.
    assert (∃ resp' rs, places_nearby (n0 + S m) = Ok resp'
                        ∧ results resp' = Some rs) as (resp' & rs & Hnext & Hrs).
    { destruct (decide (S m = k)) as [<-|].
      - destruct Hlast as (r & rs & ? & ? & _). eauto.
      - destruct (Htok (S m)) as (r & rs & ? & ? & ? & _); [lia|]. eauto. }
    rewrite Hnext, Hrs.
    destruct (IH fuel (S m) resp' (all_cafes ++ rs) (log ++ [NextPage token]))
      as (log' & Hrun & Hlen); [lia | lia | done | |].
    { rewrite length_app. simpl. lia. }
    exists log'. split; [|done]. rewrite Hrun, pages_S, Hnext. simpl.
    rewrite Hrs. simpl. rewrite <- app_assoc.
    by replace (S (n0 + S m)) with (n0 + S (S m)) by lia.
Qed.

End Nearby.

End CollectorFacts.

Module CollectorClaims.
Import Frame Query Notions CollectorFacts Scenario.

(** C1, as the code has it: [collect_cafes] follows the tokens and has
    no cap of its own.  When the first response without a
    [next_page_token] is the response number [k] (from 0) and the
    responses are well-formed pages, it issues exactly [k + 1] fetches,
    terminates, and returns the tagged records of these pages; so it
    issues at most 3 fetches, for at most 60 records at 20 a page, when
    the provider stops issuing tokens by its third response. *)
Theorem collect_cafes_follows_tokens
    (places_nearby : nat → result response) (neighborhood : gmap string cell)
    (fuel k : nat) :
  is_Some (neighborhood !! "center") →
  is_Some (neighborhood !! "radius") →
  (∀ j, j < k → page_with_token (places_nearby j)) →
  last_page (places_nearby k) →
  k ≤ fuel →
  ∃ log,
    collect_cafes places_nearby fuel neighborhood []
    = (Done (tagged neighborhood (pages places_nearby 0 (S k))), log)
    ∧ length log = S k
    ∧ (k ≤ 2 → length log ≤ 3)
    ∧ (k ≤ 2 → (∀ j, length (page_results (places_nearby j)) ≤ 20) →
       length (pages places_nearby 0 (S k)) ≤ 60).
Proof.
  intros [center Hcenter] [radius Hradius] Htok Hlast Hfuel.
  unfold collect_cafes. rewrite Hcenter, Hradius. simpl.
  assert (∃ resp, places_nearby 0 = Ok resp) as [resp Hresp].
  { destruct k.
    - destruct Hlast as (r & ? & ? & _). eauto.
    - destruct (Htok 0) as (r & ? & ? & ? & _); [lia|]. eauto. }
  rewrite Hresp.
  destruct (paginate_stops places_nearby 0 k Htok Hlast k fuel 0 resp
              (default [] (results resp)) [Nearby center radius "cafe" "en"])
    as (log & Hrun & Hlen); [lia | done | done | done |].
  exists log. rewrite Hrun, pages_S, Hresp. simpl.
  split; [done|]. split; [done|]. split; [lia|].
  intros Hk Hpage.
  pose proof (pages_length places_nearby 0 (S k) Hpage) as Hle.
  rewrite pages_S, Hresp in Hle. simpl in Hle. lia.
Qed.

Lemma collect_cafes_follows_tokens_witness :
  ∃ log,
    collect_cafes three_pages 5 bugis []
    = (Done (tagged bugis (pages three_pages 0 3)), log)
    ∧ length log = 3
    ∧ (2 ≤ 2 → length log ≤ 3)
    ∧ (2 ≤ 2 → (∀ j, length (page_results (three_pages j)) ≤ 20) →
       length (pages three_pages 0 3) ≤ 60).
Proof.
  apply (collect_cafes_follows_tokens three_pages bugis 5 2).
  - by eexists.
  - by eexists.
  - intros j Hj. exists {| results := Some [cafe "a"; cafe "b"];
                           next_page_token := Some "next" |}.
    eexists _, _. unfold three_pages. rewrite decide_True by done. done.
  - by eexists _, _.
  - lia.
Defined.

(** Against a provider that always issues a token the collector has
    issued 11 fetches after 10 turns of its loop, and is still
    fetching. *)
Lemma collect_cafes_no_page_cap :
  (collect_cafes always_token 10 bugis []).1 = Fetching
  ∧ length (collect_cafes always_token 10 bugis []).2 = 11.
Proof. vm_compute. done. Qed.

Lemma paginate_always_token fuel resp all_cafes log :
  is_Some (next_page_token resp) →
  ∃ log', paginate always_token fuel resp all_cafes log = (Fetching, log')
          ∧ length log' = length log + fuel.
Proof.
  revert resp all_cafes log. induction fuel as [|fuel IH];
    intros resp all_cafes log [token Htoken]; simpl; rewrite Htoken.
  - exists log. split; [done | lia].
  - destruct (IH {| results := Some [cafe "p"]; next_page_token := Some "next" |}
                (all_cafes ++ [cafe "p"]) (log ++ [NextPage token]))
      as (log' & Hrun & Hlen); [by eexists|].
    exists log'. split; [done|]. rewrite Hlen, length_app. simpl. lia.
Qed.

(** With such a provider the loop never terminates: whatever the fuel,
    the run is still fetching, one fetch issued for each turn. *)
Lemma collect_cafes_always_token_diverges fuel :
  ∃ log, collect_cafes always_token fuel bugis [] = (Fetching, log)
         ∧ length log = S fuel.
Proof.
  unfold collect_cafes.
  change (bugis !! "center") with (Some (Nums [Q2Qc (13 # 10); Q2Qc (10385 # 100)])).
  change (bugis !! "radius") with (Some (Int 800)). cbn beta iota.
  change (always_token (length [])) with
    (Ok {| results := Some [cafe "p"]; next_page_token := Some "next" |}).
  cbn beta iota.
  match goal with
  | |- context [paginate _ _ ?r ?a ?l] =>
      destruct (paginate_always_token fuel r a l) as (log & Hrun & Hlen);
        [by eexists|]
  end.
  rewrite Hrun. exists log. split; [done|]. rewrite Hlen. simpl. lia.
Qed.

End CollectorClaims.

(** ** The review collector *)

Module ReviewCollectorClaims.
Import Frame Query Scenario.

Section Details.
Variable place : string → result (option detail).

Lemma each_review_place_name place_id nm rs st :
  place_name (each_review place_id nm rs st).1 = place_name st.
Proof.
  revert st. induction rs as [|r rs IH]; intros st; [done|]. simpl.
  destruct (review_date_of r); [|done]. by rewrite IH.
Qed.

Lemma try_place_bound place_id st :
  is_Some (place_name st) → is_Some (place_name (try_place place place_id st).1).
Proof.
  intros Hst. unfold try_place.
  destruct (place place_id) as [[res|]|e]; [|done..].
  rewrite each_review_place_name. by eexists.
Qed.

(** Once [place_name] is bound the handler can print it, and the loop
    runs to its end. *)
Lemma collect_reviews_loop_bound place_ids st :
  is_Some (place_name st) → returns (collect_reviews_loop place place_ids st).
Proof.
  revert st. induction place_ids as [|p ps IH]; intros st Hst; simpl.
  - by eexists.
  - pose proof (try_place_bound p st Hst) as Hst'.
    destruct (try_place place p st) as [st' [[]|e]]; simpl in Hst'.
    + by apply IH.
    + destruct Hst' as [nm Hnm]. rewrite Hnm. apply IH. by eexists.
Qed.

(** When the first request raises, [place_name] is still unbound in
    the handler, and the handler's own error leaves
    [collect_reviews]. *)
Lemma collect_reviews_first_raises place_id rest e :
  place place_id = Raise e →
  collect_reviews place (place_id :: rest) = Raise (UnboundLocalError "place_name").
Proof. intros Hp. unfold collect_reviews, try_place. simpl. unfold try_place. by rewrite Hp. Qed.

(** When the first request gives a result, no exception leaves
    [collect_reviews], whichever later request raises. *)
Lemma collect_reviews_first_ok place_id rest res :
  place place_id = Ok (Some res) →
  returns (collect_reviews place (place_id :: rest)).
Proof.
  intros Hp. unfold collect_reviews. simpl. unfold try_place. rewrite Hp.
  match goal with
  | |- context [each_review ?p ?n ?rs ?st] =>
      pose proof (each_review_place_name p n rs st) as Hnm;
      destruct (each_review p n rs st) as [st' [[]|e]]
  end; simpl in Hnm.
  - destruct (collect_reviews_loop_bound rest st') as [recs ->]; [by rewrite Hnm|].
    by eexists.
  - rewrite Hnm.
    destruct (collect_reviews_loop_bound rest st') as [recs ->]; [by rewrite Hnm|].
    by eexists.
Qed.

End Details.

(** C2, on the code: with the places [p1], [p2], [p3] requested and
    the request for the first one failing, an [UnboundLocalError]
    leaves [collect_reviews] and no review of [p2] or [p3] is returned;
    the same failure at the second place is skipped as the claim
    says. *)
Theorem collect_reviews_first_failure_escapes :
  collect_reviews (details_failing_at "p1") ["p1"; "p2"; "p3"]
  = Raise (UnboundLocalError "place_name")
  ∧ (df ← collect_reviews (details_failing_at "p2") ["p1"; "p2"; "p3"];
     Ok ((λ r, (get r "place_id", get r "author_id")) <$> rows df))
    = Ok [(Str "p1", Str "p1"); (Str "p3", Str "p3")].
Proof. split; vm_compute; reflexivity. Qed.

End ReviewCollectorClaims.

(** ** [collect_all] *)

Module CollectAllClaims.
Import Frame Query Scenario.

(** C10, as the code has it: for every non-empty list of
    neighborhoods [collect_all] returns nothing and collects no area, as
    its first turn raises before any request is issued: a [KeyError] at
    the progress message when the first neighborhood has no ['name'] key,
    and else an [AttributeError], [collect_neighborhood] being no
    attribute of a [CafeQuery]. *)
Theorem collect_all_never_returns
    (places_nearby : nat → result response) (fuel : nat)
    (neighborhood : gmap string cell) (rest : list (gmap string cell)) :
  collect_all places_nearby fuel (neighborhood :: rest)
  = (Done (Raise (if decide (is_Some (neighborhood !! "name"))
                  then AttributeError "collect_neighborhood"
                  else KeyError "name")),
     []).
Proof.
  unfold collect_all. simpl.
  destruct (neighborhood !! "name") as [nm|] eqn:Hname.
  - rewrite decide_True by (by eexists). done.
  - rewrite decide_False by (by intros [? ?]). done.
Qed.

(** For an area as [__init__] builds it, without a ['name'] key, the
    exception is a [KeyError], not an attribute error. *)
Lemma collect_all_key_error :
  collect_all three_pages 5 [bugis] = (Done (Raise (KeyError "name")), []).
Proof. vm_compute. reflexivity. Qed.

Example collect_all_attribute_error :
  collect_all three_pages 5 [<["name" := Str "Bugis"]> bugis]
  = (Done (Raise (AttributeError "collect_neighborhood")), []).
Proof. vm_compute. reflexivity. Qed.

(** With no neighborhood at all, [pd.concat] has nothing to
    concatenate. *)
Example collect_all_empty :
  collect_all three_pages 5 []
  = (Done (Raise (ValueError "No objects to concatenate")), []).
Proof. reflexivity. Qed.

End CollectAllClaims.

(** ** The aggregator *)

Module AggregatorClaims.
Import Frame Pandas Process Scenario.

Lemma edge_eqb_refl e : edge_eqb e e = true.
Proof. destruct e as [q|]; [|done]. simpl. apply Qeq_bool_iff. reflexivity. Qed.

(** The quantiles of the source are no quartiles: 25, 5 and 75 lie
    outside the interval from 0 to 1. *)
Lemma qcut_literal_raises x labels :
  qcut x [0; 0; 25; 5; 0; 75; 1]%Q labels
  = Raise (ValueError "percentiles should all be in the interval [0, 1]").
Proof. reflexivity. Qed.

(** Nor could edges taken at these quantiles be told apart: 0 comes
    three times. *)
Lemma literal_edges_not_unique x sorted labels :
  bins_to_cuts x (quantile sorted <$> [0; 0; 25; 5; 0; 75; 1]%Q) labels
  = Raise (ValueError "Bin edges must be unique").
Proof.
  unfold bins_to_cuts. rewrite !fmap_cons. cbn [has_duplicates existsb].
  by rewrite edge_eqb_refl.
Qed.

(** C4, on the code: [clean_cafe_df] assigns no tier to any
    population; on every places table it raises, for a missing column
    or else in [pd.qcut]. *)
Theorem clean_cafe_df_raises (cafes_df : DataFrame) :
  raises (clean_cafe_df cafes_df).
Proof.
  unfold clean_cafe_df, raises.
  destruct (drop_duplicates "place_id" cafes_df) as [df|e]; [|by eexists]. cbn.
  destruct (fillna _ _ df) as [df'|e]; [|by eexists]. cbn.
  destruct (col "total_ratings" df') as [x|e]; [|by eexists]. cbn.
  rewrite qcut_literal_raises. by eexists.
Qed.

Example four_cafes_raises :
  clean_cafe_df four_cafes
  = Raise (ValueError "percentiles should all be in the interval [0, 1]").
Proof. vm_compute. reflexivity. Qed.

(** A table as [collect_cafes] builds it holds the number of ratings
    as [user_ratings_total]; on it [clean_cafe_df] does not reach
    [pd.qcut]. *)
Example collected_cafes_raise :
  match (Query.collect_cafes three_pages 5 bugis []).1 with
  | Query.Done (Ok cafes_df) =>
      (columns cafes_df, len cafes_df, clean_cafe_df cafes_df)
      = (["name"; "place_id"; "rating"; "user_ratings_total"; "price_level";
          "neighborhood"; "region"],
         6, Raise (KeyError "total_ratings"))
  | _ => False
  end.
Proof. vm_compute. reflexivity. Qed.

(** With the quartiles the specification names, [qcut] does give the
    four tiers on this population. *)
Example four_cafes_quartiles :
  (x ← col "total_ratings" four_cafes;
   qcut x [0; 1 # 4; 1 # 2; 3 # 4; 1]%Q [Int 1; Int 2; Int 3; Int 4])
  = Ok [Int 1; Int 2; Int 3; Int 4].
Proof. vm_compute. reflexivity. Qed.

(** C5, on the code: [cafe_reviews_df] returns no merged table; on all
    tables it raises, for a missing column or else at [.count(2)], a
    frame having no axis 2. *)
Theorem cafe_reviews_df_raises (cafes_df reviews_df : DataFrame) :
  raises (cafe_reviews_df cafes_df reviews_df).
Proof.
  unfold cafe_reviews_df, raises.
  destruct (groupby_agg "place_id" reviews_df) as [g|e]; [|by eexists].
  cbn. by eexists.
Qed.

Example cafe_reviews_df_no_axis :
  cafe_reviews_df four_cafes cleaned_reviews
  = Raise (ValueError "No axis named 2 for object type DataFrame").
Proof. vm_compute. reflexivity. Qed.

End AggregatorClaims.

(** * Further properties *)

(** ** The cleaned text *)

Module TextExtras.
Import Text TextFacts TextShape.

Lemma append_empty_r s : s +:+ "" = s.
Proof. induction s as [|c s IH]; [done|]. by rewrite append_cons, IH. Qed.

Lemma tidy_word w rest p :
  word w → tidy p (w +:+ rest) = tidy false rest.
Proof.
  intros [Hne Hsp]. revert p. induction w as [|c w IH]; intros p; [done|].
  apply spaceless_cons in Hsp as [Hc Hw].
  rewrite append_cons. cbn [tidy].
  destruct (Ascii.eqb_spec c " ") as [->|_]; [done|].
  rewrite Hc. cbn [negb andb].
  destruct w as [|c' w']; [by rewrite append_nil|].
  by apply IH.
Qed.

Lemma tidy_join w ws : Forall word (w :: ws) → tidy true (join " " (w :: ws)) = true.
Proof.
  revert w. induction ws as [|w' ws IH]; intros w Hws.
  - inversion Hws; subst. cbn [join].
    rewrite <- (append_empty_r w), tidy_word; done.
  - inversion Hws; subst. rewrite join_cons, tidy_word by done.
    change (" " +:+ join " " (w' :: ws)) with (String " " (join " " (w' :: ws))).
    cbn [tidy]. rewrite IH; done.
Qed.

Lemma cleaned_words t : Forall word (lower <$> split t).
Proof.
  apply Forall_fmap. eapply Forall_impl; [apply split_words|].
  intros w Hw. by apply word_lower.
Qed.

(** X1: in a cleaned text the words are parted by single ASCII spaces:
    it holds no other white-space character, no two spaces in a row, and
    neither starts nor ends with a space. *)
Theorem clean_review_text_single_spaced (text : option string) :
  single_spaced (clean_review_text text) = true.
Proof.
  destruct text as [t|]; [|done]. rewrite clean_review_text_eq.
  pose proof (cleaned_words t) as Hws.
  destruct (lower <$> split t) as [|w ws]; [done|].
  unfold single_spaced. rewrite tidy_join by done. apply orb_true_r.
Qed.

(** X2: a cleaned text is in lower case: [str.lower] leaves it as it
    is. *)
Theorem clean_review_text_lower (text : option string) :
  lower (clean_review_text text) = clean_review_text text.
Proof.
  destruct text as [t|]; [|done].
  rewrite clean_review_text_eq, join_lower. f_equal.
  rewrite <- list_fmap_compose. apply list_fmap_ext. intros _ w _. apply lower_idem.
Qed.

(** X3: cleaning keeps the words: the [word_count] of the cleaned text
    is the number of white-space delimited words of the raw text, and the
    words of the cleaned text are those of the raw text in lower case. *)
Theorem clean_review_text_words (t : string) :
  split (clean_review_text (Some t)) = lower <$> split t
  ∧ word_count (clean_review_text (Some t)) = length (split t).
Proof.
  assert (split (clean_review_text (Some t)) = lower <$> split t) as Hsplit.
  { rewrite clean_review_text_eq. apply split_join, cleaned_words. }
  split; [done|]. unfold word_count. by rewrite Hsplit, length_fmap.
Qed.







End TextExtras.

(** ** Frames *)

Module FrameExtras.
Import Frame Notions FrameFacts Scenario Cases.

Section drop_dups.
Context {A K : Type} `{EqDecision K} (key : A → K).

Lemma drop_dups_fixed seen l :
  NoDup (key <$> l) → (∀ x, x ∈ l → key x ∉ seen) → drop_dups key seen l = l.
Proof.
  revert seen. induction l as [|y l IH]; intros seen Hnd Hseen; [done|].
  rewrite fmap_cons, NoDup_cons in Hnd. destruct Hnd as [Hy Hnd]. simpl.
  rewrite decide_False by (apply Hseen; by left). f_equal. apply IH; [done|].
  intros x Hx [Heq|?]%elem_of_cons.
  - apply Hy. rewrite <- Heq. by apply list_elem_of_fmap_2.
  - apply (Hseen x); [by right | done].
Qed.

Lemma drop_dups_same_length seen l :
  length (drop_dups key seen l) = length l → drop_dups key seen l = l.
Proof.
  revert seen. induction l as [|y l IH]; intros seen; [done|]. simpl.
  case_decide.
  - pose proof (sublist_length _ _ (drop_dups_sublist key seen l)). lia.
  - simpl. intros [= Hlen]. f_equal. by apply IH.
Qed.

Lemma drop_dups_length l :
  length (drop_dups key [] l) = length (remove_dups (key <$> l)).
Proof.
  transitivity (length (key <$> drop_dups key [] l)); [by rewrite length_fmap|].
  apply Permutation_length, NoDup_Permutation.
  - apply drop_dups_NoDup.
  - apply NoDup_remove_dups.
  - intros k. rewrite drop_dups_keys, elem_of_remove_dups, elem_of_nil. tauto.
Qed.

End drop_dups.


(** X6: the rows [drop_duplicates] leaves are as many as the column has
    distinct values, and it removes none exactly when the values are
    pairwise distinct, in which case the frame comes back unchanged. *)
Theorem drop_duplicates_len (c : string) (df df' : DataFrame) :
  drop_duplicates c df = Ok df' →
  len df' = length (remove_dups ((λ r, get r c) <$> rows df))
  ∧ len df' ≤ len df
  ∧ (len df' = len df ↔ NoDup ((λ r, get r c) <$> rows df))
  ∧ (len df' = len df → df' = df).
Proof.
  intros (_ & Hcols & Hrows)%drop_duplicates_Ok. unfold len. rewrite Hrows.
  split.
  { apply drop_dups_length. }
  split; [apply sublist_length, drop_dups_sublist|].
  assert (length (drop_dups (λ r, get r c) [] (rows df)) = length (rows df) →
          drop_dups (λ r, get r c) [] (rows df) = rows df) as Heq
    by apply drop_dups_same_length.
  split; [split|].
  - intros Hlen. rewrite <- (Heq Hlen) at 1. apply drop_dups_NoDup.
  - intros Hnd. rewrite drop_dups_fixed; [done | done |].
    intros x _. apply not_elem_of_nil.
  - intros Hlen. destruct df as [cs rs], df' as [cs' rs']. simpl in *.
    by rewrite Hcols, Hrows, (Heq Hlen).
Qed.

Lemma drop_duplicates_len_witness :
  ∃ df', drop_duplicates "place_id" two_areas = Ok df'
         ∧ len df' = 3 ∧ len df' ≤ len two_areas.
Proof.
  eexists. split; [vm_compute; reflexivity|].
  edestruct (drop_duplicates_len "place_id" two_areas) as (Hlen & Hle & _);
    [vm_compute; reflexivity|].
  split; [exact Hlen | exact Hle].
Defined.

Lemma get_insert (r : row) c c' v :
  get (<[c := v]> r) c' = if decide (c' = c) then v else get r c'.
Proof.
  unfold get. case_decide as Hc.
  - subst. by rewrite lookup_insert_eq.
  - by rewrite lookup_insert_ne.
Qed.

Lemma fill_row (cs : list string) (value : cell) (r : row) c :
  get (foldr (λ c (r : row), if decide (get r c = NaN) then <[c := value]> r else r)
             r cs) c
  = if decide (c ∈ cs ∧ get r c = NaN) then value else get r c.
Proof.
  induction cs as [|c0 cs IH]; cbn [foldr].
  - case_decide as Hc; [|done]. by destruct Hc as [?%elem_of_nil _].
  - set (r1 := foldr _ r cs) in *.
    assert (get (if decide (get r1 c0 = NaN) then <[c0 := value]> r1 else r1) c
            = if decide (c = c0 ∧ get r1 c0 = NaN) then value else get r1 c) as ->.
    { destruct (decide (get r1 c0 = NaN)) as [Hna|Hna].
      - rewrite get_insert. destruct (decide (c = c0)) as [->|].
        + by rewrite decide_True.
        + rewrite decide_False; [done | by intros [? _]].
      - rewrite decide_False; [done | by intros [_ ?]]. }
    rewrite IH. destruct (decide (c = c0)) as [->|Hne].
    + rewrite IH.
      repeat case_decide; try done; exfalso;
        rewrite ?elem_of_cons in *; intuition congruence.
    + repeat case_decide; try done; exfalso;
        rewrite ?elem_of_cons in *; intuition congruence.
Qed.

(** X7: [fillna] on the columns [cs] puts the value in the cells of
    these columns that are missing, and in no other cell: every other
    cell, and the columns, row count and row order, stay as they were. *)
Theorem fillna_fills (cs : list string) (value : cell) (df df' : DataFrame) :
  fillna cs value df = Ok df' →
  columns df' = columns df
  ∧ Forall2 (λ r r', ∀ c, get r' c
                          = if decide (c ∈ cs ∧ get r c = NaN) then value else get r c)
            (rows df) (rows df').
Proof.
  unfold fillna. destruct (missing cs df); [done|]. intros [= <-].
  split; [done|]. simpl. apply Forall2_fmap_r, Forall_Forall2_diag, Forall_forall.
  intros r _ c. apply fill_row.
Qed.

Lemma fillna_fills_witness :
  ∃ df', fillna ["price_level"; "rating"; "total_ratings"] (Int (-1)) sparse_cafes = Ok df'
         ∧ columns df' = columns sparse_cafes
         ∧ Forall2 (λ r r', ∀ c,
                      get r' c
                      = if decide (c ∈ ["price_level"; "rating"; "total_ratings"]
                                   ∧ get r c = NaN)
                        then Int (-1) else get r c)
                   (rows sparse_cafes) (rows df').
Proof.
  eexists. split; [vm_compute; reflexivity|].
  apply (fillna_fills ["price_level"; "rating"; "total_ratings"] (Int (-1)) sparse_cafes).
  vm_compute; reflexivity.
Defined.

End FrameExtras.

(** ** The place collector: requests and errors *)

Module CollectorExtras.
Import Frame Query Notions Protocol CollectorFacts Scenario Cases.

Section Nearby.
Variable places_nearby : nat → result response.

Lemma tokens_S n0 n token :
  token_of (places_nearby n0) = Some token →
  tokens places_nearby n0 (S n) = token :: tokens places_nearby (S n0) n.
Proof. intros Htoken. unfold tokens. simpl. by rewrite Htoken. Qed.

(** The requests of the loop: one for each token, in order. *)
Lemma paginate_log n0 k :
  (∀ j, j < k → page_with_token (places_nearby (n0 + j))) →
  last_page (places_nearby (n0 + k)) →
  ∀ d fuel m resp all_cafes log,
    m + d = k → d ≤ fuel →
    places_nearby (n0 + m) = Ok resp →
    length log = n0 + S m →
    (paginate places_nearby fuel resp all_cafes log).2
    = log ++ (NextPage <$> tokens places_nearby (n0 + m) d).
Proof.
  intros Htok Hlast. induction d as [|d IH];
    intros fuel m resp all_cafes log Hk Hfuel Hresp Hlog.
  - assert (m = k) as -> by lia.
    destruct Hlast as (resp' & rs & Heq & _ & Hnone).
    rewrite Hresp in Heq. injection Heq as <-.
    destruct fuel; simpl; rewrite Hnone; simpl; by rewrite app_nil_r.
  - destruct (Htok m) as (resp0 & rs0 & token & Heq & _ & Htoken); [lia|].
    rewrite Hresp in Heq. injection Heq as <-.
    destruct fuel as [|fuel]; [lia|]. simpl. rewrite Htoken, Hlog.
    assert (∃ resp' rs, places_nearby (n0 + S m) = Ok resp'
                        ∧ results resp' = Some rs) as (resp' & rs & Hnext & Hrs).
    { destruct (decide (S m = k)) as [<-|].
      - destruct Hlast as (r & rs & ? & ? & _). eauto.
      - destruct (Htok (S m)) as (r & rs & ? & ? & ? & _); [lia|]. eauto. }
    rewrite Hnext, Hrs.
    rewrite (IH fuel (S m)); [|lia|lia|done|rewrite length_app; simpl; lia].
    rewrite (tokens_S (n0 + m) d token) by (by rewrite Hresp).
    rewrite <- app_assoc. simpl.
    by replace (S (n0 + m)) with (n0 + S m) by lia.
Qed.

(** The loop ends with the exception [e] when the response number
    [n0 + k] fails with it, tokens having come until then. *)
Lemma paginate_fails n0 k e :
  (∀ j, j < k → page_with_token (places_nearby (n0 + j))) →
  (places_nearby (n0 + k) = Raise e
   ∨ ∃ resp, places_nearby (n0 + k) = Ok resp ∧ results resp = None
             ∧ e = KeyError "results") →
  ∀ d fuel m resp all_cafes log,
    m + S d = k → S d ≤ fuel →
    places_nearby (n0 + m) = Ok resp →
    length log = n0 + S m →
    ∃ log',
      paginate places_nearby fuel resp all_cafes log = (Done (Raise e), log')
      ∧ length log' = n0 + S k.
Proof.
  intros Htok Hfail. induction d as [|d IH];
    intros fuel m resp all_cafes log Hk Hfuel Hresp Hlog;
    (destruct (Htok m) as (resp0 & rs0 & token & Heq & _ & Htoken); [lia|]);
    rewrite Hresp in Heq; injection Heq as <-;
    (destruct fuel as [|fuel]; [lia|]); simpl; rewrite Htoken, Hlog.
  - replace (n0 + S m) with (n0 + k) by lia.
    destruct Hfail as [->|(resp' & -> & -> & ->)];
      (eexists; split; [done|]); rewrite length_app; simpl; lia.
  - destruct (Htok (S m)) as (resp' & rs & token' & Hnext & Hrs & _); [lia|].
    rewrite Hnext, Hrs.
    apply (IH fuel (S m)); [lia | lia | done |].
    rewrite length_app. simpl. lia.
Qed.

End Nearby.

(** X8: the requests of [collect_cafes] for one area: first the nearby
    search at the area's center and radius for type [cafe] in English,
    then one request for each token received, which carries that token
    and nothing else, in the order the tokens came. *)
Theorem collect_cafes_requests
    (places_nearby : nat → result response) (neighborhood : gmap string cell)
    (center radius : cell) (fuel k : nat) :
  neighborhood !! "center" = Some center →
  neighborhood !! "radius" = Some radius →
  (∀ j, j < k → page_with_token (places_nearby j)) →
  last_page (places_nearby k) →
  k ≤ fuel →
  (collect_cafes places_nearby fuel neighborhood []).2
  = Nearby center radius "cafe" "en" :: (NextPage <$> tokens places_nearby 0 k).
Proof.
  intros Hcenter Hradius Htok Hlast Hfuel.
  unfold collect_cafes. rewrite Hcenter, Hradius. simpl.
  assert (∃ resp, places_nearby 0 = Ok resp) as [resp Hresp].
  { destruct k.
    - destruct Hlast as (r & ? & ? & _). eauto.
    - destruct (Htok 0) as (r & ? & ? & ? & _); [lia|]. eauto. }
  rewrite Hresp.
  pose proof (paginate_log places_nearby 0 k Htok Hlast k fuel 0 resp
                (default [] (results resp)) [Nearby center radius "cafe" "en"])
    as Hlog.
  destruct (paginate places_nearby fuel resp _ _) as [[[all|e]|] log'];
    simpl in *; rewrite Hlog; done.
Qed.

Lemma collect_cafes_requests_witness :
  (collect_cafes three_pages 5 bugis []).2
  = Nearby (Nums [Q2Qc (13 # 10); Q2Qc (10385 # 100)]) (Int 800) "cafe" "en"
    :: (NextPage <$> tokens three_pages 0 2).
Proof.
  apply (collect_cafes_requests three_pages bugis _ _ 5 2).
  - reflexivity.
  - reflexivity.
  - intros j Hj. exists {| results := Some [cafe "a"; cafe "b"];
                           next_page_token := Some "next" |}.
    eexists _, _. unfold three_pages. rewrite decide_True by done. done.
  - by eexists _, _.
  - lia.
Defined.

(** X9: a transport error on any page is fatal to the area: when the
    request number [k] raises, tokens having come until then,
    [collect_cafes] raises the same exception after [k + 1] requests, and
    the pages it had collected are lost. *)
Theorem collect_cafes_transport_error
    (places_nearby : nat → result response) (neighborhood : gmap string cell)
    (fuel k : nat) (e : exn) :
  is_Some (neighborhood !! "center") →
  is_Some (neighborhood !! "radius") →
  (∀ j, j < k → page_with_token (places_nearby j)) →
  places_nearby k = Raise e →
  k ≤ fuel →
  ∃ log, collect_cafes places_nearby fuel neighborhood [] = (Done (Raise e), log)
         ∧ length log = S k.
Proof.
  intros [center Hcenter] [radius Hradius] Htok Hfail Hfuel.
  unfold collect_cafes. rewrite Hcenter, Hradius. simpl.
  destruct k as [|k].
  - rewrite Hfail. by eexists.
  - destruct (Htok 0) as (resp & rs & token & Hresp & _); [lia|]. rewrite Hresp.
    destruct (paginate_fails places_nearby 0 (S k) e Htok (or_introl Hfail)
                k fuel 0 resp (default [] (results resp))
                [Nearby center radius "cafe" "en"])
      as (log & Hrun & Hlen); [lia | lia | done | done |].
    rewrite Hrun. by exists log.
Qed.

Lemma collect_cafes_transport_error_witness :
  ∃ log, collect_cafes third_fails 5 bugis []
         = (Done (Raise (ProviderError "timeout")), log)
         ∧ length log = 3.
Proof.
  apply (collect_cafes_transport_error third_fails bugis 5 2).
  - by eexists.
  - by eexists.
  - intros j Hj. exists {| results := Some [cafe "a"]; next_page_token := Some "next" |}.
    eexists _, _. unfold third_fails. rewrite decide_True by done. done.
  - reflexivity.
  - lia.
Defined.

(** X10: a follow-up page must carry ['results']: when the response
    number [k], with [1 ≤ k], has no such key, [collect_cafes] raises
    [KeyError('results')]. *)
Theorem collect_cafes_page_without_results
    (places_nearby : nat → result response) (neighborhood : gmap string cell)
    (fuel k : nat) (resp : response) :
  is_Some (neighborhood !! "center") →
  is_Some (neighborhood !! "radius") →
  (∀ j, j < k → page_with_token (places_nearby j)) →
  1 ≤ k →
  places_nearby k = Ok resp → results resp = None →
  k ≤ fuel →
  ∃ log, collect_cafes places_nearby fuel neighborhood []
         = (Done (Raise (KeyError "results")), log)
         ∧ length log = S k.
Proof.
  intros [center Hcenter] [radius Hradius] Htok Hk Hresp Hnone Hfuel.
  unfold collect_cafes. rewrite Hcenter, Hradius. simpl.
  destruct k as [|k]; [lia|].
  destruct (Htok 0) as (resp0 & rs & token & Hresp0 & _); [lia|]. rewrite Hresp0.
  destruct (paginate_fails places_nearby 0 (S k) (KeyError "results") Htok
              (or_intror (ex_intro _ resp (conj Hresp (conj Hnone eq_refl))))
              k fuel 0 resp0 (default [] (results resp0))
              [Nearby center radius "cafe" "en"])
    as (log & Hrun & Hlen); [lia | lia | done | done |].
  rewrite Hrun. by exists log.
Qed.

Lemma collect_cafes_page_without_results_witness :
  ∃ log, collect_cafes second_page_bare 5 bugis []
         = (Done (Raise (KeyError "results")), log)
         ∧ length log = 2.
Proof.
  apply (collect_cafes_page_without_results second_page_bare bugis 5 1
           {| results := None; next_page_token := None |}).
  - by eexists.
  - by eexists.
  - intros j Hj. exists {| results := Some [cafe "a"]; next_page_token := Some "next" |}.
    eexists _, _. unfold second_page_bare. rewrite decide_True by done. done.
  - lia.
  - reflexivity.
  - reflexivity.
  - lia.
Defined.

(** X11: an area without places is no error: when the first response
    carries no token and no record (an empty ['results'] or none at all),
    [collect_cafes] returns [pd.DataFrame()], a frame without rows and
    without columns, after its one request. *)
Theorem collect_cafes_no_places
    (places_nearby : nat → result response) (neighborhood : gmap string cell)
    (center radius : cell) (fuel : nat) (resp : response) :
  neighborhood !! "center" = Some center →
  neighborhood !! "radius" = Some radius →
  places_nearby 0 = Ok resp →
  next_page_token resp = None →
  default [] (results resp) = [] →
  collect_cafes places_nearby fuel neighborhood []
  = (Done (Ok empty), [Nearby center radius "cafe" "en"]).
Proof.
  intros Hcenter Hradius Hresp Hnone Hnil.
  unfold collect_cafes. rewrite Hcenter, Hradius. simpl. rewrite Hresp, Hnil.
  destruct fuel; simpl; rewrite Hnone; done.
Qed.

Lemma collect_cafes_no_places_witness :
  collect_cafes no_results 0 bugis []
  = (Done (Ok empty),
     [Nearby (Nums [Q2Qc (13 # 10); Q2Qc (10385 # 100)]) (Int 800) "cafe" "en"]).
Proof.
  apply (collect_cafes_no_places no_results bugis _ _ 0
           {| results := None; next_page_token := None |}); reflexivity.
Defined.

End CollectorExtras.

(** ** The place collector: the frame of an area *)

Module TaggedExtras.
Import Frame Query Notions FrameFacts ReviewFacts FrameExtras Scenario.






End TaggedExtras.

(** ** The review collector: what it returns *)

Module ReviewCollectorExtras.
Import Frame Query Notions FrameFacts ReviewShape ReviewCollectorClaims Scenario Cases.

Section Details.
Variable place : string → result (option detail).

Lemma each_review_appends place_id nm rs st :
  all_reviews (each_review place_id nm rs st).1
  = all_reviews st
    ++ all_reviews (each_review place_id nm rs
                      {| place_name := None; all_reviews := [] |}).1.
Proof.
  revert st. induction rs as [|r rs IH]; intros st; simpl.
  - by rewrite app_nil_r.
  - destruct (review_date_of r) as [d|e]; simpl; [|by rewrite app_nil_r].
    rewrite IH. simpl. rewrite (IH {| place_name := None; all_reviews := [_] |}).
    simpl. by rewrite <- app_assoc.
Qed.

Lemma try_place_appends place_id st :
  all_reviews (try_place place place_id st).1
  = all_reviews st ++ contribution place place_id.
Proof.
  unfold contribution, try_place.
  destruct (place place_id) as [[res|]|e]; simpl; try by rewrite app_nil_r.
  rewrite each_review_appends. simpl.
  by rewrite (each_review_appends _ _ _ {| place_name := Some _; all_reviews := [] |}).
Qed.

Lemma collect_reviews_loop_appends place_ids st recs :
  collect_reviews_loop place place_ids st = Ok recs →
  recs = all_reviews st ++ (place_ids ≫= contribution place).
Proof.
  revert st. induction place_ids as [|p ps IH]; intros st; simpl.
  - intros [= <-]. by rewrite app_nil_r.
  - pose proof (try_place_appends p st) as Happ.
    destruct (try_place place p st) as [st' [[]|e]]; simpl in Happ.
    + intros ->%IH. by rewrite Happ, <- app_assoc.
    + destruct (place_name st'); [|done].
      intros ->%IH. by rewrite Happ, <- app_assoc.
Qed.

Lemma each_review_records_of place_id nm rs st :
  all_reviews (each_review place_id nm rs st).1
  = all_reviews st ++ (record_of place_id nm <$> take_while convertible rs).
Proof.
  revert st. induction rs as [|r rs IH]; intros st; cbn [each_review take_while].
  - simpl. by rewrite app_nil_r.
  - unfold convertible at 1.
    destruct (review_date_of r) as [d|e] eqn:Hd; [|simpl; by rewrite app_nil_r].
    rewrite IH, fmap_cons. unfold record_of at 2. rewrite Hd. simpl.
    by rewrite <- app_assoc.
Qed.

End Details.

(** X13: [collect_reviews] on a list that starts with the place [p]
    returns a frame exactly when the response for [p] carries a
    ['result']; if the first request raises, or its response has no
    ['result'], the handler's [UnboundLocalError] leaves the method,
    whatever the other places are. *)
Theorem collect_reviews_returns
    (place : string → result (option detail)) (p : string) (rest : list string) :
  (returns (collect_reviews place (p :: rest)) ↔ ∃ res, place p = Ok (Some res))
  ∧ (collect_reviews place (p :: rest) = Raise (UnboundLocalError "place_name")
     ↔ ¬ ∃ res, place p = Ok (Some res)).
Proof.
  destruct (place p) as [[res|]|e] eqn:Hp.
  - pose proof (collect_reviews_first_ok place p rest res Hp) as [df Hdf].
    rewrite Hdf. split; split; try done.
    + intros _. by eexists.
    + intros _. by eexists.
    + intros Hno. destruct Hno. by eexists.
  - assert (collect_reviews place (p :: rest) = Raise (UnboundLocalError "place_name"))
      as Hraise.
    { unfold collect_reviews. simpl. unfold try_place. by rewrite Hp. }
    rewrite Hraise. split; split; try done.
    + by intros [? ?].
    + by intros [? ?].
    + by intros _ [? ?].
  - rewrite (collect_reviews_first_raises place p rest e Hp).
    split; split; try done.
    + by intros [? ?].
    + by intros [? ?].
    + by intros _ [? ?].
Qed.

(** X14: when [collect_reviews] returns, its frame is made of what each
    requested place gives alone, one place after the other in the order
    of [place_ids]: no place changes the reviews of another. *)
Theorem collect_reviews_by_place
    (place : string → result (option detail)) (place_ids : list string)
    (df : DataFrame) :
  collect_reviews place place_ids = Ok df →
  df = from_records (place_ids ≫= contribution place).
Proof.
  unfold collect_reviews. intros (recs & Hloop & [= <-])%bind_Ok.
  by apply collect_reviews_loop_appends in Hloop as ->.
Qed.

Lemma collect_reviews_by_place_witness :
  ∃ df, collect_reviews (details_failing_at "p2") ["p1"; "p2"; "p3"] = Ok df
        ∧ df = from_records (["p1"; "p2"; "p3"] ≫= contribution (details_failing_at "p2")).
Proof.
  eexists. split; [vm_compute; reflexivity|].
  apply (collect_reviews_by_place (details_failing_at "p2") ["p1"; "p2"; "p3"]).
  vm_compute; reflexivity.
Defined.

(** X15: what a place gives: nothing when its request raises or its
    response has no ['result']; else one record for each review, in
    order, up to the first review whose time does not convert, each with
    the place's id and its name (['Unknown'] without one). *)
Theorem contribution_of_place
    (place : string → result (option detail)) (p : string) :
  contribution place p
  = match place p with
    | Ok (Some res) =>
        record_of p (default "Unknown" (name res))
          <$> take_while convertible (default [] (reviews res))
    | _ => []
    end.
Proof.
  unfold contribution, try_place.
  destruct (place p) as [[res|]|e]; [|done..].
  by rewrite each_review_records_of.
Qed.

(** A review whose time is out of range ends the reviews of its place:
    the one before it is kept, the one after it is lost. *)
Example bad_time_contribution :
  (λ rec : record, get (list_to_map rec) "author_id")
    <$> contribution bad_time_details "p1"
  = [Str "1"].
Proof. vm_compute. reflexivity. Qed.

(** X16: every row [collect_reviews] returns belongs to a requested
    place: its [place_id] is one of [place_ids]. *)
Theorem collect_reviews_place_ids
    (place : string → result (option detail)) (place_ids : list string)
    (df : DataFrame) :
  collect_reviews place place_ids = Ok df →
  Forall (λ r : row, ∃ p, p ∈ place_ids ∧ get r "place_id" = Str p) (rows df).
Proof.
  unfold collect_reviews. intros (recs & Hloop & [= <-])%bind_Ok.
  apply collect_reviews_loop_appends in Hloop as ->. simpl.
  apply Forall_fmap, Forall_forall. intros rec (p & Hrec & Hp)%list_elem_of_bind.
  exists p. split; [done|].
  unfold contribution, try_place in Hrec.
  destruct (place p) as [[res|]|e]; [|by apply elem_of_nil in Hrec..].
  rewrite each_review_records_of in Hrec. simpl in Hrec.
  apply list_elem_of_fmap in Hrec as (r & -> & _). done.
Qed.

Lemma collect_reviews_place_ids_witness :
  ∃ df, collect_reviews (details_failing_at "p2") ["p1"; "p2"; "p3"] = Ok df
        ∧ Forall (λ r : row, ∃ p, p ∈ ["p1"; "p2"; "p3"] ∧ get r "place_id" = Str p)
                 (rows df).
Proof.
  eexists. split; [vm_compute; reflexivity|].
  apply (collect_reviews_place_ids (details_failing_at "p2") ["p1"; "p2"; "p3"]).
  vm_compute; reflexivity.
Defined.

Lemma last_segment_plain cur seg :
  has_slash seg = false → last_segment cur seg = cur +:+ seg.
Proof.
  revert cur. induction seg as [|c seg IH]; intros cur Hseg; simpl.
  - by rewrite TextExtras.append_empty_r.
  - simpl in Hseg. apply orb_false_iff in Hseg as [Hc Hseg]. rewrite Hc, IH by done.
    clear. induction cur as [|c' cur IH]; [done|].
    by rewrite !TextFacts.append_cons, IH.
Qed.

Lemma last_segment_slash cur pre seg :
  last_segment cur (pre +:+ String "/" seg) = last_segment "" seg.
Proof.
  revert cur. induction pre as [|c pre IH]; intros cur.
  - done.
  - rewrite TextFacts.append_cons. simpl. destruct (Ascii.eqb c "/"); apply IH.
Qed.

(** X17: the author id is what follows the last slash of the author
    URL: for a URL [pre/seg] with no slash in [seg] it is [seg], so that a
    URL which ends with a slash gives the empty id, not a missing one. *)
Theorem author_id_after_last_slash (r : review) (pre seg : string) :
  author_url r = Some (pre +:+ String "/" seg) →
  has_slash seg = false →
  author_id_of r = Str seg.
Proof.
  intros Hurl Hseg. unfold author_id_of. rewrite Hurl.
  destruct (String.eqb_spec (pre +:+ String "/" seg) "") as [Heq|_].
  - by destruct pre.
  - by rewrite last_segment_slash, last_segment_plain.
Qed.

Lemma author_id_after_last_slash_witness :
  author_id_of (a_review "1234/") = Str "".
Proof.
  apply (author_id_after_last_slash (a_review "1234/")
           "https://www.google.com/maps/contrib/1234" "");
    reflexivity.
Defined.

End ReviewCollectorExtras.

(** ** The areas *)

Module InitExtras.
Import Frame Query Init Cases.

Lemma tag_tag r n r' n' d : tag r' n' (tag r n d) = tag r' n' d.
Proof.
  unfold tag. apply map_eq. intros k.
  destruct (decide (k = "region")) as [->|Hr];
    [by rewrite !lookup_insert_eq|].
  rewrite !(lookup_insert_ne _ "region") by done.
  destruct (decide (k = "neighborhood_name")) as [->|Hn];
    [by rewrite !lookup_insert_eq|].
  rewrite !(lookup_insert_ne _ "neighborhood_name") by done.
  by rewrite ?lookup_insert_ne.
Qed.

Lemma init_loop_refs es h acc : (init_loop es h acc).2 = acc ++ (details <$> es).
Proof.
  revert h acc. induction es as [|e es IH]; intros h acc; simpl.
  - by rewrite app_nil_r.
  - by rewrite IH, <- app_assoc.
Qed.

Lemma last_holder_cons e es ref :
  last_holder ref (e :: es)
  = match last_holder ref es with
    | Some e' => Some e'
    | None => if decide (details e = ref) then Some e else None
    end.
Proof.
  unfold last_holder. destruct (decide (details e = ref)) as [He|He].
  - rewrite filter_cons_True by done. rewrite last_cons. by destruct (last _).
  - rewrite filter_cons_False by done. by destruct (last _).
Qed.

(** The object at [ref] when the loop is done: as it was, with the tags
    of the last entry that holds it. *)
Lemma init_loop_heap es h acc ref :
  (init_loop es h acc).1 ref
  = match last_holder ref es with
    | Some e => tag (region e) (name e) (h ref)
    | None => h ref
    end.
Proof.
  revert h acc. induction es as [|e es IH]; intros h acc; [done|].
  cbn [init_loop]. rewrite IH, last_holder_cons.
  destruct (last_holder ref es) as [e'|].
  - destruct (decide (details e = ref)) as [<-|He].
    + by rewrite fn_lookup_insert, tag_tag.
    + by rewrite fn_lookup_insert_ne.
  - destruct (decide (details e = ref)) as [<-|He].
    + by rewrite fn_lookup_insert.
    + by rewrite fn_lookup_insert_ne.
Qed.

Lemma neighborhoods_eq cfg h :
  neighborhoods cfg h
  = (λ e, match last_holder (details e) (entries cfg) with
          | Some e' => tag (region e') (name e') (h (details e))
          | None => h (details e)
          end) <$> entries cfg.
Proof.
  unfold neighborhoods.
  pose proof (init_loop_refs (entries cfg) h []) as Hrefs.
  pose proof (init_loop_heap (entries cfg) h []) as Hheap.
  destruct (init_loop (entries cfg) h []) as [h' refs]. simpl in *.
  rewrite Hrefs, <- list_fmap_compose. apply list_fmap_ext.
  intros _ e _. simpl. apply Hheap.
Qed.

Lemma last_holder_own es e :
  NoDup (details <$> es) → e ∈ es → last_holder (details e) es = Some e.
Proof.
  induction es as [|e0 es IH]; [by intros _ ?%elem_of_nil|].
  rewrite fmap_cons, NoDup_cons. intros [He0 Hnd] Hin.
  rewrite last_holder_cons.
  apply elem_of_cons in Hin as [->|Hin].
  - rewrite decide_True by done.
    destruct (last_holder (details e0) es) as [e'|] eqn:Hlast; [|done].
    exfalso. apply He0. unfold last_holder in Hlast.
    apply last_Some in Hlast as [l' Hl'].
    assert (e' ∈ filter (λ e, details e = details e0) es) as He'.
    { rewrite Hl'. apply elem_of_app. right. by left. }
    apply list_elem_of_filter in He' as [<- He'].
    by apply list_elem_of_fmap_2.
  - by rewrite IH.
Qed.

(** X18: when every entry of the configuration has details of its own,
    [__init__] lists, in the order of the file (regions, then the
    neighborhoods of each), the details of each entry with
    ['neighborhood_name'] and ['region'] set to its name and its region;
    a key of one of these names in the file is overwritten, every other
    key is kept. *)
Theorem neighborhoods_tagged (cfg : config) (h : heap) :
  NoDup (details <$> entries cfg) →
  neighborhoods cfg h
  = (λ e, tag (region e) (name e) (h (details e))) <$> entries cfg.
Proof.
  intros Hnd. rewrite neighborhoods_eq. apply list_fmap_ext.
  intros _ e He%list_elem_of_lookup_2. by rewrite last_holder_own.
Qed.

Lemma neighborhoods_tagged_witness :
  neighborhoods sg_config sg_heap
  = (λ e, tag (region e) (name e) (sg_heap (details e))) <$> entries sg_config.
Proof.
  apply (neighborhoods_tagged sg_config sg_heap).
  apply (bool_decide_unpack _). by vm_compute.
Defined.

(** X19: [__init__] writes the tags into the details objects
    themselves, so that, when entries share one object (an alias in the
    file), each listed neighborhood carries the name and region of the
    last entry that holds its object. *)
Theorem neighborhoods_aliased (cfg : config) (h : heap) :
  Forall2 (λ e nb, ∃ e', last_holder (details e) (entries cfg) = Some e'
                         ∧ nb = tag (region e') (name e') (h (details e)))
          (entries cfg) (neighborhoods cfg h).
Proof.
  rewrite neighborhoods_eq. apply Forall2_fmap_r, Forall_Forall2_diag, Forall_forall.
  intros e He. simpl.
  destruct (last_holder (details e) (entries cfg)) as [e'|] eqn:Hlast; [by eexists|].
  exfalso. unfold last_holder in Hlast. apply last_None in Hlast.
  assert (e ∈ filter (λ x, details x = details e) (entries cfg)) as Hin
    by by apply list_elem_of_filter.
  rewrite Hlast in Hin. by apply elem_of_nil in Hin.
Qed.

(** X20: [__init__] gives no area a ['name'] key: when the first entry
    of the configuration has none in the file, [collect_all] on the areas
    of [__init__] raises [KeyError('name')] at its progress message and
    issues no request. *)
Theorem collect_all_on_init
    (places_nearby : nat → result response) (fuel : nat)
    (cfg : config) (h : heap) (e : entry) (rest : list entry) :
  entries cfg = e :: rest →
  h (details e) !! "name" = None →
  collect_all places_nearby fuel (neighborhoods cfg h)
  = (Done (Raise (KeyError "name")), []).
Proof.
  intros Hentries Hname. rewrite neighborhoods_eq, Hentries, fmap_cons.
  unfold collect_all. cbn [collect_all_loop].
  assert (∀ r n, tag r n (h (details e)) !! "name" = None) as Htag.
  { intros r n. unfold tag. by rewrite !lookup_insert_ne. }
  destruct (last_holder (details e) (e :: rest)) as [e'|];
    by rewrite ?Htag, ?Hname.
Qed.

Lemma collect_all_on_init_witness :
  collect_all Scenario.three_pages 5 (neighborhoods sg_config sg_heap)
  = (Done (Raise (KeyError "name")), []).
Proof.
  apply (collect_all_on_init Scenario.three_pages 5 sg_config sg_heap
           {| region := "Central"; name := "Bugis"; details := 0 |}
           [{| region := "Central"; name := "Tiong Bahru"; details := 1 |};
            {| region := "East"; name := "Katong"; details := 2 |}]);
    reflexivity.
Defined.

End InitExtras.

(** ** The review cleaner, row by row *)

Module ReviewRowExtras.
Import Datetime Frame Notions FrameFacts ReviewFacts FrameExtras Process ReviewRow
  Scenario.

Lemma mapM_Forall2 {A B} (f : A → result B) l l' :
  mapM f l = Ok l' ↔ Forall2 (λ x y, f x = Ok y) l l'.
Proof.
  revert l'. induction l as [|x l IH]; intros l'.
  - split; [intros [= <-]; constructor | by inversion 1].
  - split.
    + cbn. intros (y & Hy & H)%bind_Ok. apply bind_Ok in H as (k & Hk & [= <-]).
      constructor; [done | by apply IH].
    + inversion 1 as [|? y ? k Hy Hk]; subst. apply IH in Hk.
      change (mapM f (x :: l)) with (y ← f x; k ← mapM f l; mret (y :: k)).
      by rewrite Hy, Hk.
Qed.

Lemma Forall2_Forall_witness_r {A B} (P : A → B → Prop) l l' :
  Forall2 P l l' → Forall (λ y, ∃ x, x ∈ l ∧ P x y) l'.
Proof.
  induction 1 as [|x y l l' Hxy _ IH]; constructor.
  - exists x. split; [by left | done].
  - eapply Forall_impl; [exact IH|]. intros y' (x' & ? & ?).
    exists x'. split; [by right | done].
Qed.

Lemma zip_insert_fmap c (f : row → cell) (l : list row) :
  zip_with (λ (r : row) v, <[c := v]> r) l (f <$> l) = (λ r, <[c := f r]> r) <$> l.
Proof. induction l as [|r l IH]; [done|]. csimpl. by rewrite IH. Qed.

Lemma zip_insert_Forall2 c (P : row → cell → Prop) (l : list row) (vs : list cell) :
  Forall2 P l vs →
  Forall2 (λ r r', ∃ v, P r v ∧ r' = <[c := v]> r) l
          (zip_with (λ (r : row) v, <[c := v]> r) l vs).
Proof. induction 1; simpl; constructor; eauto. Qed.

(** A column computed cell by cell from the column [src]. *)
Lemma set_col_pure c src (f : cell → cell) df vs :
  col src df = Ok vs →
  rows (set_col c (f <$> vs) df) = (λ r, <[c := f (get r src)]> r) <$> rows df.
Proof.
  intros [_ ->]%col_Ok. simpl. rewrite <- list_fmap_compose.
  apply (zip_insert_fmap c (λ r, f (get r src))).
Qed.

(** A column computed by a conversion that may raise. *)
Lemma set_col_mapM c src (g : cell → result cell) df vs ws :
  col src df = Ok vs → mapM g vs = Ok ws →
  Forall2 (λ r r', ∃ w, g (get r src) = Ok w ∧ r' = <[c := w]> r)
          (rows df) (rows (set_col c ws df)).
Proof.
  intros [_ ->]%col_Ok Hws%mapM_Forall2. simpl.
  apply zip_insert_Forall2. by apply Forall2_fmap_l in Hws.
Qed.

(** The rows [clean_review_df] returns are the rows [drop_duplicates]
    keeps, each cleaned alone. *)
Lemma clean_review_df_rowwise reviews_df df :
  clean_review_df reviews_df = Ok df →
  ∃ df0, drop_duplicates "place_id" reviews_df = Ok df0
         ∧ Forall2 (λ r r', clean_row r = Ok r') (rows df0) (rows df).
Proof.
  unfold clean_review_df. intros H.
  apply bind_Ok in H as (df0 & Hdrop & H). exists df0. split; [done|].
  apply bind_Ok in H as (text & Htext & H).
  apply bind_Ok in H as (text_clean & Hclean & H). cbv zeta in H.
  apply bind_Ok in H as (tc1 & Htc1 & H).
  apply bind_Ok in H as (tc2 & Htc2 & H).
  apply bind_Ok in H as (time & Htime & H).
  apply bind_Ok in H as (review_date & Hdate & H).
  apply bind_Ok in H as (rd1 & Hrd1 & H).
  apply bind_Ok in H as (rd2 & Hrd2 & H).
  apply bind_Ok in H as (rd3 & Hrd3 & H).
  injection H as <-.
  rewrite (set_col_pure _ _ _ _ _ Hrd3), (set_col_pure _ _ _ _ _ Hrd2),
    (set_col_pure _ _ _ _ _ Hrd1).
  pose proof (set_col_mapM "review_date" _ _ _ _ _ Htime Hdate) as Hstep2.
  rewrite (set_col_pure _ _ _ _ _ Htc2), (set_col_pure _ _ _ _ _ Htc1) in Hstep2.
  pose proof (set_col_mapM "text_clean" _ _ _ _ _ Htext Hclean) as Hstep1.
  rewrite !Forall2_fmap_r. rewrite !Forall2_fmap_l in Hstep2.
  eapply Forall2_trans; [|exact Hstep1|exact Hstep2].
  intros r0 r1 r4 (tc & Htc & ->) (rd & Hrd & ->). unfold compose in *.
  unfold clean_row. rewrite Htc. cbn.
  rewrite !get_insert in Hrd. simpl in Hrd. rewrite Hrd. cbn.
  rewrite !get_insert. simpl. done.
Qed.

(** X21: [clean_review_df] works row by row: when it returns, its rows
    are the rows [drop_duplicates] keeps, in order, each with its seven
    derived cells computed from its own [text] and [time] and from no
    other row. *)
Theorem clean_review_df_row_by_row (reviews_df df : DataFrame) :
  clean_review_df reviews_df = Ok df →
  ∃ df0, drop_duplicates "place_id" reviews_df = Ok df0
         ∧ mapM clean_row (rows df0) = Ok (rows df).
Proof.
  intros (df0 & Hdrop & Hrows)%clean_review_df_rowwise.
  exists df0. split; [done|]. by apply mapM_Forall2.
Qed.

Lemma clean_review_df_row_by_row_witness :
  ∃ df df0, clean_review_df same_place_reviews = Ok df
            ∧ drop_duplicates "place_id" same_place_reviews = Ok df0
            ∧ mapM clean_row (rows df0) = Ok (rows df).
Proof.
  eexists.
  assert (∀ df, clean_review_df same_place_reviews = Ok df →
                ∃ df0, clean_review_df same_place_reviews = Ok df
                       ∧ drop_duplicates "place_id" same_place_reviews = Ok df0
                       ∧ mapM clean_row (rows df0) = Ok (rows df)) as Hw.
  { intros df Hdf.
    destruct (clean_review_df_row_by_row same_place_reviews df Hdf) as (df0 & ? & ?).
    by exists df0. }
  apply Hw. vm_compute; reflexivity.
Defined.

Lemma clean_row_consistent r r' : clean_row r = Ok r' → consistent r'.
Proof.
  unfold clean_row. intros (tc & Htc & H)%bind_Ok.
  apply bind_Ok in H as (rd & Hrd & [= <-]).
  assert (∃ s, tc = Str s) as [s ->].
  { unfold clean_text_cell in Htc. destruct (get r "text"); inversion Htc; eauto. }
  assert (rd = NaN ∨ ∃ ts, rd = Timestamp ts ∧ in_bounds ts = true) as Hrd'.
  { unfold to_datetime_cell, to_datetime in Hrd.
    destruct (get r "time") as [|t|q| | | | | |]; try done.
    - left. by inversion Hrd.
    - destruct (in_bounds t) eqn:Hb; [|done]. right. inversion Hrd. eauto.
    - destruct (in_bounds (Qfloor (this q))) eqn:Hb; [|done].
      right. inversion Hrd. eauto. }
  split.
  - exists s. rewrite !get_insert. simpl. done.
  - destruct Hrd' as [->|(ts & -> & Hb)].
    + left. rewrite !get_insert. simpl. done.
    + right. exists ts. rewrite !get_insert. simpl. done.
Qed.



Lemma month_range ts : (1 ≤ dt_month ts ≤ 12)%Z.
Proof.
  unfold dt_month, date_of, civil_from_days. cbv zeta. cbn [month].
  generalize (ts / 86400)%Z. intros days.
  match goal with |- context [if ?b then _ else _] => destruct b eqn:Hb end;
    Z.to_euclidean_division_equations; lia.
Qed.

Lemma dayofweek_range ts : (0 ≤ dt_dayofweek ts ≤ 6)%Z.
Proof. unfold dt_dayofweek. Z.to_euclidean_division_equations; lia. Qed.

(** X24: the calendar cells [clean_review_df] derives are in range: a
    [month] that is not missing lies between 1 and 12, a [day_of_week]
    between 0, for Monday, and 6. *)
Theorem clean_review_df_calendar (reviews_df df : DataFrame) :
  clean_review_df reviews_df = Ok df →
  Forall (λ r, (∀ m, get r "month" = Int m → (1 ≤ m ≤ 12)%Z)
               ∧ (∀ d, get r "day_of_week" = Int d → (0 ≤ d ≤ 6)%Z))
         (rows df).
Proof.
  intros (df0 & _ & Hrows)%clean_review_df_rowwise.
  induction Hrows as [|r r' l l' Hr _ IH]; constructor; [|done].
  apply clean_row_consistent in Hr as [_ [(_ & _ & Hm & Hd)|(ts & _ & _ & _ & Hm & Hd)]].
  - rewrite Hm, Hd. by split.
  - rewrite Hm, Hd. split.
    + intros m [= <-]. apply month_range.
    + intros d [= <-]. apply dayofweek_range.
Qed.

Lemma clean_review_df_calendar_witness :
  ∃ df, clean_review_df same_place_reviews = Ok df
        ∧ Forall (λ r, (∀ m, get r "month" = Int m → (1 ≤ m ≤ 12)%Z)
                       ∧ (∀ d, get r "day_of_week" = Int d → (0 ≤ d ≤ 6)%Z))
                 (rows df).
Proof.
  eexists. split; [vm_compute; reflexivity|].
  apply (clean_review_df_calendar same_place_reviews).
  vm_compute; reflexivity.
Defined.

Lemma mapM_returns {A B} (f : A → result B) l :
  Forall (λ x, returns (f x)) l → returns (mapM f l).
Proof.
  induction 1 as [|x l [y Hy] _ [k Hk]]; [by eexists|].
  exists (y :: k).
  change (mapM f (x :: l)) with (y ← f x; k ← mapM f l; mret (y :: k)).
  by rewrite Hy, Hk.
Qed.

Lemma col_present c df : c ∈ columns df → col c df = Ok ((λ r, get r c) <$> rows df).
Proof. intros. unfold col. by rewrite decide_True. Qed.

Lemma is_text_returns c : is_text c = true → returns (clean_text_cell c).
Proof. destruct c; try done; by eexists. Qed.

Lemma is_epoch_returns c : is_epoch c = true → returns (to_datetime_cell c).
Proof.
  destruct c as [|t|q| | | | | |]; try done; simpl; intros Hb.
  - by eexists.
  - unfold to_datetime. rewrite Hb. by eexists.
  - unfold to_datetime. rewrite Hb. by eexists.
Qed.

Lemma bind_ret {A B} (a : A) (k : A → result B) : Ok a ≫= k = k a.
Proof. done. Qed.

Ltac next := rewrite bind_ret; cbv beta zeta.

(** X23: [clean_review_df] returns a frame whenever the table has the
    columns [place_id], [text] and [time], every [text] is a string or
    missing, and every [time] is missing or a number of seconds within the
    range of a timestamp. *)
Theorem clean_review_df_returns (reviews_df : DataFrame) :
  "place_id" ∈ columns reviews_df →
  "text" ∈ columns reviews_df →
  "time" ∈ columns reviews_df →
  Forall (λ r, is_text (get r "text") = true ∧ is_epoch (get r "time") = true)
         (rows reviews_df) →
  returns (clean_review_df reviews_df).
Proof.
  intros Hid Htext Htime Hrows. unfold clean_review_df, drop_duplicates.
  rewrite decide_True by done. next.
  set (df0 := {| columns := columns reviews_df; rows := drop_dups _ [] _ |}).
  assert (Forall (λ r, is_text (get r "text") = true ∧ is_epoch (get r "time") = true)
                 (rows df0)) as Hrows0.
  { rewrite Forall_forall in Hrows. apply Forall_forall.
    intros r [Hr _]%elem_of_drop_dups. by apply Hrows. }
  rewrite (col_present "text" df0) by done. next.
  destruct (mapM_returns clean_text_cell ((λ r, get r "text") <$> rows df0))
    as [text_clean Hclean].
  { apply Forall_fmap. eapply Forall_impl; [exact Hrows0|].
    intros r [? _]. by apply is_text_returns. }
  rewrite Hclean. next.
  assert (length text_clean = length (rows df0)) as Hlen
    by (by rewrite (mapM_Ok_length _ _ _ Hclean), length_fmap).
  set (df1 := set_col "text_clean" text_clean df0).
  rewrite (col_present "text_clean" df1) by (apply elem_of_columns_set_col; by left).
  next. set (df2 := set_col "text_length" _ df1).
  rewrite (col_present "text_clean" df2)
    by (apply elem_of_columns_set_col; right; apply elem_of_columns_set_col; by left).
  next. set (df3 := set_col "word_count" _ df2).
  assert (Forall2 (agree_outside derived) (rows df0) (rows df3)) as Hagree.
  { unfold df3, df2, df1.
    repeat (apply set_col_step;
            [apply (bool_decide_unpack _); by vm_compute
            | rewrite ?length_fmap; done |]).
    apply Forall_Forall2_diag, Forall_forall. by intros r _ c _. }
  rewrite (col_present "time" df3)
    by (do 3 (apply elem_of_columns_set_col; right); done).
  next.
  destruct (mapM_returns to_datetime_cell ((λ r, get r "time") <$> rows df3))
    as [review_date Hdate].
  { apply Forall_fmap.
    pose proof (Forall2_Forall_witness_r _ _ _ Hagree) as Hall. clear -Hall Hrows0.
    eapply Forall_impl; [exact Hall|]. intros r' (r & Hr & Hrr').
    simpl. rewrite (Hrr' "time") by (apply (bool_decide_unpack _); by vm_compute).
    rewrite Forall_forall in Hrows0. apply is_epoch_returns, (Hrows0 r Hr). }
  rewrite Hdate. next.
  set (df4 := set_col "review_date" review_date df3).
  rewrite (col_present "review_date" df4) by (apply elem_of_columns_set_col; by left).
  next. set (df5 := set_col "year" _ df4).
  rewrite (col_present "review_date" df5)
    by (apply elem_of_columns_set_col; right; apply elem_of_columns_set_col; by left).
  next. set (df6 := set_col "month" _ df5).
  rewrite (col_present "review_date" df6)
    by (do 2 (apply elem_of_columns_set_col; right);
        apply elem_of_columns_set_col; by left).
  next. by eexists.
Qed.

Lemma clean_review_df_returns_witness : returns (clean_review_df same_place_reviews).
Proof.
  apply (clean_review_df_returns same_place_reviews).
  - apply (bool_decide_unpack _). by vm_compute.
  - apply (bool_decide_unpack _). by vm_compute.
  - apply (bool_decide_unpack _). by vm_compute.
  - repeat constructor.
Defined.

End ReviewRowExtras.

(** ** The summary *)

Module SummaryExtras.
Import Frame Notions FrameFacts Summary Cases.







(** X26: a places table without rows has no summary: with its [region]
    and [neighborhood] columns in place, [generate_summary_stats] raises
    [ZeroDivisionError] at the average, whatever the reviews table is. *)
Theorem summary_of_no_cafes (cafes_df reviews_df : DataFrame) :
  "region" ∈ columns cafes_df →
  "neighborhood" ∈ columns cafes_df →
  rows cafes_df = [] →
  generate_summary_stats cafes_df reviews_df = inl ZeroDivisionError.
Proof.
  intros Hregion Hnbhd Hrows. unfold generate_summary_stats, col, len.
  rewrite !decide_True by done. rewrite Hrows. done.
Qed.

Lemma summary_of_no_cafes_witness :
  generate_summary_stats no_cafes some_reviews = inl ZeroDivisionError.
Proof.
  apply (summary_of_no_cafes no_cafes some_reviews).
  - apply (bool_decide_unpack _). by vm_compute.
  - apply (bool_decide_unpack _). by vm_compute.
  - reflexivity.
Defined.

End SummaryExtras.

(** ** The collection script *)

Module ScriptExtras.
Import Frame Query Notions FrameFacts ReviewShape ReviewCollectorClaims
  ReviewCollectorExtras Script Scenario Cases.

Section Run.
Variable places_nearby : nat → result response.
Variable place : string → result (option detail).

(** With a provider that knows no place the loop appends nothing, one
    request for each area. *)
Lemma areas_loop_nothing fuel neighborhoods cafes reviews log :
  Forall configured neighborhoods →
  (∀ n, ∃ resp, places_nearby n = Ok resp ∧ next_page_token resp = None
                ∧ default [] (results resp) = []) →
  ∃ log', areas_loop places_nearby place fuel neighborhoods cafes reviews log
          = (Done (Ok (cafes, reviews)), log')
          ∧ length log' = length log + length neighborhoods.
Proof.
  intros Hconf Hnone. revert log.
  induction Hconf as [|nb nbs ([nm Hnm] & [rg Hrg] & [c Hc] & [rd Hrd]) _ IH];
    intros log.
  - exists log. split; [done | simpl; lia].
  - cbn [areas_loop]. rewrite Hnm, Hrg. unfold collect_cafes. rewrite Hc, Hrd.
    destruct (Hnone (length log)) as (resp & -> & Htoken & Hres). rewrite Hres.
    assert (∀ l, paginate places_nearby fuel resp [] l = (Done (Ok []), l)) as ->
      by (intros l; destruct fuel; simpl; by rewrite Htoken).
    cbn. destruct (IH (log ++ [Nearby c rd "cafe" "en"])) as (log' & -> & Hlen).
    exists log'. split; [done|]. rewrite Hlen, length_app. simpl. lia.
Qed.

End Run.

(** X27: when no area has any place, [collect_all_data] has nothing to
    concatenate: after one request for each area it raises the
    [ValueError] of [pd.concat], also for an empty list of areas. *)
Theorem collect_all_data_nothing_found
    (places_nearby : nat → result response) (place : string → result (option detail))
    (fuel : nat) (neighborhoods : list (gmap string cell)) :
  Forall configured neighborhoods →
  (∀ n, ∃ resp, places_nearby n = Ok resp ∧ next_page_token resp = None
                ∧ default [] (results resp) = []) →
  ∃ log, collect_all_data places_nearby place fuel neighborhoods
         = (Done (Raise (ValueError "No objects to concatenate")), log)
         ∧ length log = length neighborhoods.
Proof.
  intros Hconf Hnone. unfold collect_all_data.
  destruct (areas_loop_nothing places_nearby place fuel neighborhoods [] [] []
              Hconf Hnone) as (log & -> & Hlen).
  by exists log.
Qed.

Lemma collect_all_data_nothing_found_witness :
  ∃ log, collect_all_data no_results no_review 0 [bugis; katong]
         = (Done (Raise (ValueError "No objects to concatenate")), log)
         ∧ length log = 2.
Proof.
  apply (collect_all_data_nothing_found no_results no_review 0 [bugis; katong]).
  - repeat constructor; by eexists.
  - intros n. by eexists.
Defined.

(** X28: an area whose places have no review at all ends the run: the
    frame of its reviews has no column, and merging the area's tags into
    it on [place_id] raises [KeyError('place_id')]. *)
Theorem collect_all_data_no_review
    (places_nearby : nat → result response) (place : string → result (option detail))
    (fuel : nat) (neighborhood : gmap string cell) (rest : list (gmap string cell))
    (cafes_df : DataFrame) (log : list request) :
  is_Some (neighborhood !! "neighborhood_name") →
  is_Some (neighborhood !! "region") →
  collect_cafes places_nearby fuel neighborhood [] = (Done (Ok cafes_df), log) →
  df_empty cafes_df = false →
  "place_id" ∈ columns cafes_df →
  "neighborhood" ∈ columns cafes_df →
  "region" ∈ columns cafes_df →
  (∀ p, ∃ res, place p = Ok (Some res) ∧ default [] (reviews res) = []) →
  collect_all_data places_nearby place fuel (neighborhood :: rest)
  = (Done (Raise (KeyError "place_id")), log).
Proof.
  intros [nm Hnm] [rg Hrg] Hcafes Hempty Hid Hnb Hregion Hplace.
  unfold collect_all_data. cbn [areas_loop]. rewrite Hnm, Hrg, Hcafes, Hempty.
  assert (area_reviews place cafes_df = Raise (KeyError "place_id")) as ->; [|done].
  unfold area_reviews, col. rewrite decide_True by done. cbn.
  set (ids := tolist _).
  assert (collect_reviews place ids = Ok empty) as ->.
  { assert (ids ≫= contribution place = []) as Hnil.
    { clear -Hplace. induction ids as [|p ids IH]; [done|]. cbn. 
      change (mbind (contribution place) ids) with (ids ≫= contribution place).
      rewrite IH, app_nil_r.
      destruct (Hplace p) as (res & Hp & Hres).
      unfold contribution, try_place. rewrite Hp, Hres. done. }
    destruct ids as [|p ids]; [done|].
    destruct (Hplace p) as (res & Hp & _).
    destruct (collect_reviews_first_ok place p ids res Hp) as [df Hdf].
    rewrite Hdf. f_equal. unfold collect_reviews in Hdf.
    apply bind_Ok in Hdf as (recs & Hloop & [= <-]).
    apply collect_reviews_loop_appends in Hloop. rewrite Hnil in Hloop.
    by rewrite Hloop. }
  cbn. unfold select, missing.
  rewrite !filter_cons_False, filter_nil by (intros Hno; by apply Hno).
  cbn. unfold merge. rewrite decide_False; [done|].
  intros [_ Hin]. by apply elem_of_nil in Hin.
Qed.

Lemma collect_all_data_no_review_witness :
  ∃ log, collect_all_data one_page no_review 3 [bugis; katong]
         = (Done (Raise (KeyError "place_id")), log).
Proof.
  eexists.
  eapply (collect_all_data_no_review one_page no_review 3 bugis [katong]).
  - by eexists.
  - by eexists.
  - vm_compute; reflexivity.
  - vm_compute; reflexivity.
  - apply (bool_decide_unpack _). by vm_compute.
  - apply (bool_decide_unpack _). by vm_compute.
  - apply (bool_decide_unpack _). by vm_compute.
  - intros p. by eexists.
Defined.

(** X29: the failure of the first detail request of an area ends the
    run: the [UnboundLocalError] that leaves [collect_reviews] leaves
    [collect_all_data] too, and nothing is saved. *)
Theorem collect_all_data_first_request_fails
    (places_nearby : nat → result response) (place : string → result (option detail))
    (fuel : nat) (neighborhood : gmap string cell) (rest : list (gmap string cell))
    (cafes_df : DataFrame) (log : list request)
    (p : string) (ids : list cell) (e : exn) :
  is_Some (neighborhood !! "neighborhood_name") →
  is_Some (neighborhood !! "region") →
  collect_cafes places_nearby fuel neighborhood [] = (Done (Ok cafes_df), log) →
  df_empty cafes_df = false →
  col "place_id" cafes_df = Ok (Str p :: ids) →
  place p = Raise e →
  collect_all_data places_nearby place fuel (neighborhood :: rest)
  = (Done (Raise (UnboundLocalError "place_name")), log).
Proof.
  intros [nm Hnm] [rg Hrg] Hcafes Hempty Hids Hp.
  unfold collect_all_data. cbn [areas_loop]. rewrite Hnm, Hrg, Hcafes, Hempty.
  unfold area_reviews. rewrite Hids, ReviewRowExtras.bind_ret.
  change (tolist (Str p :: ids)) with (p :: tolist ids).
  by rewrite (collect_reviews_first_raises place p (tolist ids) e Hp).
Qed.

Lemma collect_all_data_first_request_fails_witness :
  ∃ log, collect_all_data one_page (details_failing_at "a") 3 [bugis; katong]
         = (Done (Raise (UnboundLocalError "place_name")), log).
Proof.
  eexists.
  eapply (collect_all_data_first_request_fails one_page (details_failing_at "a") 3
            bugis [katong] _ _ "a").
  - by eexists.
  - by eexists.
  - vm_compute; reflexivity.
  - vm_compute; reflexivity.
  - vm_compute; reflexivity.
  - reflexivity.
Defined.

(** X30: when [collect_all_data] returns, the places it returns have
    pairwise distinct [place_id]s. *)
Theorem collect_all_data_unique_places
    (places_nearby : nat → result response) (place : string → result (option detail))
    (fuel : nat) (neighborhoods : list (gmap string cell))
    (final_cafes final_reviews : DataFrame) (log : list request) :
  collect_all_data places_nearby place fuel neighborhoods
  = (Done (Ok (final_cafes, final_reviews)), log) →
  NoDup (place_id <$> rows final_cafes).
Proof.
  unfold collect_all_data.
  destruct (areas_loop _ _ _ _ _ _ _) as [[[[cs rs]|e]|] log']; [|done..].
  intros [= H _]. apply bind_Ok in H as (c & _ & H).
  apply bind_Ok in H as (r & _ & H). apply bind_Ok in H as (c' & Hdrop & [= <- _]).
  apply drop_duplicates_Ok in Hdrop as (_ & _ & ->). apply drop_dups_NoDup.
Qed.

Lemma collect_all_data_unique_places_witness :
  ∃ final_cafes final_reviews log,
    collect_all_data one_page one_review_each 3 [bugis; katong]
    = (Done (Ok (final_cafes, final_reviews)), log)
    ∧ NoDup (place_id <$> rows final_cafes).
Proof.
  eexists _, _, _.
  assert (∀ c r l,
            collect_all_data one_page one_review_each 3 [bugis; katong]
            = (Done (Ok (c, r)), l) →
            collect_all_data one_page one_review_each 3 [bugis; katong]
            = (Done (Ok (c, r)), l) ∧ NoDup (place_id <$> rows c)) as Hw.
  { intros c r l H. split; [done|].
    by apply (collect_all_data_unique_places one_page one_review_each 3
                [bugis; katong] c r l). }
  apply Hw. vm_compute; reflexivity.
Defined.

(** The reviews are not deduplicated: a place found by two areas has
    its reviews in the result twice, once with the tags of each area. *)
Example overlapping_areas_reviews :
  match collect_all_data one_page one_review_each 3 [bugis; katong] with
  | (Done (Ok (final_cafes, final_reviews)), _) =>
      ((λ r, (get r "place_id", get r "neighborhood")) <$> rows final_cafes,
       (λ r, (get r "place_id", get r "neighborhood")) <$> rows final_reviews)
      = ([(Str "a", Str "Bugis"); (Str "b", Str "Bugis")],
         [(Str "a", Str "Bugis"); (Str "b", Str "Bugis");
          (Str "a", Str "Katong"); (Str "b", Str "Katong")])
  | _ => False
  end.
Proof. vm_compute. reflexivity. Qed.

End ScriptExtras.
